(** * tableaux: a shallow embedding of the SQL data source core

    The development follows the Go packages of the repository:
    [util] (descriptor/identifier conversion), [tableaux] (order
    directions and filter modes), [config] (enums, translations,
    schema resolution and integrity), [filter], [order] and [sqlsource]
    (query builder, key resolver, request planning and the validation
    of requests by the connector).

    Go strings are byte sequences and are modelled as [string]
    (sequences of [ascii] bytes).  Go maps are [gmap]s, Go sets
    (maps to [struct{}]) are [gset]s.  A call that can abort with
    [panic] returns an [outcome]. *)

From Stdlib Require Import ZArith Ascii String List Permutation Sorted.
From Stdlib Require Import DecimalString.
From stdpp Require Import base gmap strings list sorting.

Local Open Scope string_scope.

(** ** Outcomes, errors and dynamically typed values *)

(** The result of a Go call that either returns or panics. *)
Inductive outcome (A : Type) : Type :=
| Returned (a : A)
| Panicked (message : string).
Arguments Returned {A} a.
Arguments Panicked {A} message.

Global Instance outcome_ret : MRet outcome := @Returned.
Global Instance outcome_bind : MBind outcome := λ A B k x,
  match x with
  | Returned a => k a
  | Panicked m => Panicked m
  end.

(** The error values of the repository. *)
Inductive error : Type :=
| ErrUnknownEnum
| ErrUnknownEnumKey
| ErrUnknownLanguage
| ErrUnknownTranslation
| ErrUnknownSchema
| ErrUnknownColumn
| UnresolvableSchemaError (schema : string)
| ErrorMessage (text : string).

(** A value of type [interface{}].  The code inspects only the dynamic
    types [string], [int64], [uint64] and [bool]; any other dynamic type
    is [VOther], which carries the text that [fmt]'s [%v] prints for it. *)
Inductive Value : Type :=
| VString (s : string)
| VInt64 (z : Z)
| VUint64 (z : Z)
| VBool (b : bool)
| VOther (rendering : string).

(** ** Go's [strings] and [strconv] on byte strings *)

Module strings.

Definition newline : ascii := "010"%char.
Definition underscore : ascii := "_"%char.

Definition isUpper (c : ascii) : bool :=
  (65 <=? nat_of_ascii c)%nat && (nat_of_ascii c <=? 90)%nat.

Definition isLower (c : ascii) : bool :=
  (97 <=? nat_of_ascii c)%nat && (nat_of_ascii c <=? 122)%nat.


Definition toLowerByte (c : ascii) : ascii :=
  if isUpper c then ascii_of_nat (nat_of_ascii c + 32) else c.

Definition toUpperByte (c : ascii) : ascii :=
  if isLower c then ascii_of_nat (nat_of_ascii c - 32) else c.

Fixpoint mapBytes (f : ascii → ascii) (s : string) : string :=
  match s with
  | EmptyString => EmptyString
  | String c rest => String (f c) (mapBytes f rest)
  end.

(** [strings.ToLower] and [strings.ToUpper].  Exact on ASCII strings.
    Bytes from 0x80 on are kept as they are, where Go changes the case of
    letters outside ASCII; a string with such a byte is in neither case
    mapped to an ASCII word like ["true"]. *)
Definition ToLower : string → string := mapBytes toLowerByte.
Definition ToUpper : string → string := mapBytes toUpperByte.

Fixpoint drop (n : nat) (s : string) : string :=
  match n, s with
  | O, _ => s
  | S n', String _ rest => drop n' rest
  | S _, EmptyString => EmptyString
  end.

(** [strings.HasPrefix s prefix]. *)
Definition HasPrefix (s prefix : string) : bool := String.prefix prefix s.

(** [strings.TrimPrefix s prefix]. *)
Definition TrimPrefix (s prefix : string) : string :=
  if HasPrefix s prefix then drop (String.length prefix) s else s.

(** [strings.Contains s substr]. *)
Fixpoint Contains (s substr : string) : bool :=
  String.prefix substr s ||
  match s with
  | EmptyString => false
  | String _ rest => Contains rest substr
  end.

(** [strings.Replace s old new (-1)] for a non-empty [old]: every
    non-overlapping occurrence, from the left.  [skip] counts the bytes
    of a replaced occurrence that are still to be passed over. *)
Fixpoint replaceFrom (skip : nat) (old new s : string) : string :=
  match s with
  | EmptyString => EmptyString
  | String c rest =>
      match skip with
      | S k => replaceFrom k old new rest
      | O =>
          if String.prefix old s
          then new ++ replaceFrom (String.length old - 1) old new rest
          else String c (replaceFrom 0 old new rest)
      end
  end.

Definition ReplaceAll (s old new : string) : string := replaceFrom 0 old new s.

(** [strings.Index s sep] for a one-byte separator: the first index of
    the byte, or -1. *)
Fixpoint indexByte (sep : ascii) (s : string) : option nat :=
  match s with
  | EmptyString => None
  | String c rest =>
      if Ascii.eqb c sep then Some O else S <$> indexByte sep rest
  end.

Definition Index (s : string) (sep : ascii) : Z :=
  match indexByte sep s with
  | Some i => Z.of_nat i
  | None => (-1)%Z
  end.

(** [strings.Split s sep] for a one-byte separator: one more piece than
    there are separators, so [Split "" sep] is [[""]]. *)
Fixpoint Split (s : string) (sep : ascii) : list string :=
  match s with
  | EmptyString => [EmptyString]
  | String c rest =>
      if Ascii.eqb c sep then EmptyString :: Split rest sep
      else match Split rest sep with
           | piece :: pieces => String c piece :: pieces
           | [] => [String c EmptyString]
           end
  end.

(** [strings.Join pieces sep]. *)
Fixpoint Join (pieces : list string) (sep : string) : string :=
  match pieces with
  | [] => EmptyString
  | [piece] => piece
  | piece :: rest => piece ++ sep ++ Join rest sep
  end.

End strings.

(** ** Package [util] *)

Module util.
Import strings.

(** [regexp.MustCompile("([A-Z].+?)").ReplaceAllString(s, "_${1}")]:
    leftmost non-overlapping matches of an upper-case letter followed
    by one more character ([.] does not match a newline; the lazy [+?]
    takes exactly one).  A match is replaced by ["_"] and itself, and
    the search goes on after the two matched bytes. *)
Fixpoint replaceUpperRuns (s : string) : string :=
  match s with
  | EmptyString => EmptyString
  | String c rest =>
      if isUpper c then
        match rest with
        | EmptyString => String c EmptyString
        | String d rest' =>
            if Ascii.eqb d newline then String c (replaceUpperRuns rest)
            else String underscore (String c (String d (replaceUpperRuns rest')))
        end
      else String c (replaceUpperRuns rest)
  end.

Definition DescriptorToIdentifier (descriptor : string) : string :=
  let rest := replaceUpperRuns descriptor in
  ToLower rest.

(** [regexp.MustCompile("(_[a-z])").ReplaceAllStringFunc]: every
    leftmost non-overlapping ["_"] followed by a lower-case letter is
    replaced by [ToUpper(TrimPrefix(match, "_"))]. *)
Fixpoint IdentifierToDescriptor (database : string) : string :=
  match database with
  | EmptyString => EmptyString
  | String c rest =>
      if Ascii.eqb c underscore then
        match rest with
        | EmptyString => String c EmptyString
        | String d rest' =>
            if isLower d
            then ToUpper (TrimPrefix (String c (String d EmptyString)) "_")
                   ++ IdentifierToDescriptor rest'
            else String c (IdentifierToDescriptor rest)
        end
      else String c (IdentifierToDescriptor rest)
  end.

End util.

(** ** Package [tableaux]: order directions and filter modes *)

Module tableaux.

(** [type Order string]. *)
Definition Order := string.
Definition OrderAsc : Order := "ASC".
Definition OrderDesc : Order := "DESC".

Definition Reverse (order : Order) : Order :=
  if decide (order = OrderAsc) then OrderDesc else OrderAsc.

(** [type FilterMode string]. *)
Definition FilterMode := string.
Definition FilterEquals : FilterMode := "EQUALS".
Definition FilterGreater : FilterMode := "GREATER".
Definition FilterGreaterEquals : FilterMode := "GREATER_EQUALS".
Definition FilterLesser : FilterMode := "LESSER".
Definition FilterLesserEquals : FilterMode := "LESSER_EQUALS".
Definition FilterNotEquals : FilterMode := "NOT_EQUALS".

End tableaux.

(** ** [sort.Slice], [sort.Sort] and [sort.Strings]

    Go sorts a slice in place with an unstable algorithm (insertion sort
    for short slices).  [sortSlice] is insertion sort driven by the same
    [less] callback.  Whenever [less] orders the distinct elements of the
    slice strictly and totally, there is only one sorted arrangement, so
    every sorting algorithm returns this list ([sortSlice_unique] below);
    for strings this holds for every slice ([sortStrings_unique]). *)

Fixpoint insertSorted {A} (less : A → A → bool) (x : A) (sorted : list A) : list A :=
  match sorted with
  | [] => [x]
  | y :: rest => if less y x then y :: insertSorted less x rest else x :: sorted
  end.

Definition sortSlice {A} (less : A → A → bool) (data : list A) : list A :=
  foldr (insertSorted less) [] data.

(** The order a sorted slice is in: no element is less than one before it. *)
Definition notAfter {A} (less : A → A → bool) (a b : A) : Prop := less b a = false.

(** [sort.Strings] and [sort.Sort] on a [sort.StringSlice]: ascending
    byte-wise order. *)
Definition sortStrings (data : list string) : list string :=
  sortSlice String.ltb data.

(** ** Package [config] *)

Module config.
Import strings.

(** *** Enums *)

(** [type Enum map[string]string]: enum key to translation key. *)
Abbreviation Enum := (gmap string string).

Record KeyWithTranslation : Type := {
  EnumKey : string;
  TranslationKey : string;
}.

Global Instance KeyWithTranslation_eq_dec : EqDecision KeyWithTranslation.
Proof. solve_decision. Defined.

(** [Enum.TranslationKey]: a map read of an absent key gives [""]. *)
Definition Enum_TranslationKey (enum : Enum) (key : string) : string * option error :=
  if decide (default "" (enum !! key) = "") then ("", Some ErrUnknownEnumKey)
  else (default "" (enum !! key), None).

(** [Enum.Entries]: one entry per key.  Go ranges over the map in an
    unspecified order; the model takes the order of [map_to_list]. *)
Definition Entries (enum : Enum) : list KeyWithTranslation :=
  (λ kv, {| EnumKey := kv.1; TranslationKey := kv.2 |}) <$> map_to_list enum.

(** [EnumMapper]: the enums by name.  A name that is absent reads as
    the nil map. *)
Record EnumMapper : Type := { enums : gmap string Enum }.

Definition EnumMapper_Enum (enumMapper : EnumMapper) (enum : string)
  : option Enum * option error :=
  match enums enumMapper !! enum with
  | None => (None, Some ErrUnknownEnum)
  | Some e => (Some e, None)
  end.

(** *** Translations *)

(** [type LanguageCatalog map[string]string]. *)
Abbreviation LanguageCatalog := (gmap string string).

Definition LanguageCatalog_Translate (languageCatalog : LanguageCatalog) (key : string)
  : string * option error :=
  if decide (default "" (languageCatalog !! key) = "")
  then ("??" ++ key ++ "??", Some ErrUnknownTranslation)
  else (default "" (languageCatalog !! key), None).

Record Translator : Type := { languages : gmap string LanguageCatalog }.

Definition Translator_Language (translator : Translator) (language : string)
  : option LanguageCatalog * option error :=
  match languages translator !! language with
  | None => (None, Some ErrUnknownLanguage)
  | Some catalog => (Some catalog, None)
  end.

Definition Translator_Translate (translator : Translator) (language key : string)
  : string * option error :=
  match Translator_Language translator language with
  | (Some languageCatalog, None) => LanguageCatalog_Translate languageCatalog key
  | (_, Some err) => ("", Some err)
  | (None, None) => ("", None)
  end.

(** *** Table schemas *)

Record TableSchemaColumn : Type := {
  Title : string;
  Path : string;
  Type_ : string;
  Filter : string;
  Order : string;
  PathResolver : string;
  FrontendHints : gmap string Value;
}.

(** The zero value of the struct, as [make] fills a fresh slice. *)
Definition zeroColumn : TableSchemaColumn :=
  {| Title := ""; Path := ""; Type_ := ""; Filter := ""; Order := "";
     PathResolver := ""; FrontendHints := ∅ |}.

Record TableSchemaExtensionTable : Type := {
  ExtensionTitle : string;
  Table : string;
  Key : string;
}.

(** [type TableSchemaExclusion string]. *)
Definition TableSchemaExclusion := string.

Record TableSchema : Type := {
  Entity : string;
  Extensions : list TableSchemaExtensionTable;
  Exclusions : list TableSchemaExclusion;
  Columns : list TableSchemaColumn;
}.

Record ResolvedTableSchema : Type := {
  originalSchema : TableSchema;
  columns : list TableSchemaColumn;
  columnsMap : gmap string TableSchemaColumn;
}.

(** [ResolvedTableSchema.Column]. *)
Definition Column (resolvedTableSchema : ResolvedTableSchema) (key : string)
  : TableSchemaColumn * option error :=
  match columnsMap resolvedTableSchema !! key with
  | None => (zeroColumn, Some ErrUnknownColumn)
  | Some column => (column, None)
  end.

Definition resolveColumnWithPrefix (column : TableSchemaColumn) (prefix : string)
  : TableSchemaColumn :=
  let path :=
    if decide (prefix ≠ "") then
      let pathStart := (Index (Path column) underscore + 1)%Z in
      let path := drop (Z.to_nat pathStart) (Path column) in
      if decide (prefix ≠ "") then prefix ++ "_" ++ path else path
    else Path column in
  {| Title := Title column; Path := path; Type_ := Type_ column;
     Filter := Filter column; Order := Order column;
     PathResolver := PathResolver column;
     FrontendHints := FrontendHints column |}.

(** The prefix handed to an extension's schema. *)
Definition extensionPrefix (entity prefix key : string) : string :=
  let extensionString := if decide (prefix ≠ "") then prefix else entity in
  if decide (extensionString ≠ "" ∧ key ≠ "") then extensionString ++ "_" ++ key
  else if decide (key ≠ "") then key
  else extensionString.

(** [resolveColumnsWithPrefix].  Extensions may refer to each other in
    a cycle, in which case the Go function does not return; [fuel]
    bounds the depth of the recursion and [None] means it ran out. *)
Fixpoint resolveColumnsWithPrefix (fuel : nat) (resolvableSchema : TableSchema)
    (allSchemas : gmap string TableSchema) (prefix : string)
  : option (error + list TableSchemaColumn) :=
  match fuel with
  | O => None
  | S fuel' =>
      let newColumns :=
        (λ column, resolveColumnWithPrefix column prefix) <$> Columns resolvableSchema in
      (fix extend (extensions : list TableSchemaExtensionTable)
           (newColumns : list TableSchemaColumn) {struct extensions} :=
         match extensions with
         | [] => Some (inr newColumns)
         | table :: rest =>
             match allSchemas !! Table table with
             | None => Some (inl (UnresolvableSchemaError (Table table)))
             | Some targetExtensionTable =>
                 let extensionString :=
                   extensionPrefix (Entity resolvableSchema) prefix (Key table) in
                 match resolveColumnsWithPrefix fuel' targetExtensionTable
                         allSchemas extensionString with
                 | None => None
                 | Some (inl err) => Some (inl err)
                 | Some (inr resolvedColumns) => extend rest (newColumns ++ resolvedColumns)%list
                 end
             end
         end) (Extensions resolvableSchema) newColumns
  end.

(** [resolveDeletableColumns]: the paths that some exclusion trims. *)
Definition resolveDeletableColumns (newColumns : list TableSchemaColumn)
    (schema : TableSchema) : gset string :=
  list_to_set
    (Path <$> filter
       (λ column, existsb
          (λ exclusion, negb (String.eqb (TrimPrefix (Path column) exclusion) (Path column)))
          (Exclusions schema) = true)
       newColumns).

(** [resolveColumns].  Without exclusions (a nil or an empty list) no
    column is deleted.  The final slice is made with the length
    [len(newColumns) - len(deletableColumns)] and filled from the front
    with the columns to keep; [deletableColumns] counts paths, so when
    several deleted columns share a path the slots left over at the end
    keep the zero column. *)
Definition resolveColumns (fuel : nat) (schema : TableSchema)
    (allSchemas : gmap string TableSchema)
  : option (error + list TableSchemaColumn) :=
  match resolveColumnsWithPrefix fuel schema allSchemas "" with
  | None => None
  | Some (inl err) => Some (inl err)
  | Some (inr newColumns) =>
      let deletableColumns := resolveDeletableColumns newColumns schema in
      let kept := filter (λ column, Path column ∉ deletableColumns) newColumns in
      let finalLength := (length newColumns - size deletableColumns)%nat in
      Some (inr (kept ++ replicate (finalLength - length kept) zeroColumn)%list)
  end.

Definition columnsMapOf (resolvedColumns : list TableSchemaColumn)
  : gmap string TableSchemaColumn :=
  foldl (λ m column, <[Path column := column]> m) ∅ resolvedColumns.

(** [mapSchemasToResolvedSchemas]: the loop over the schemas, in the
    order of [map_to_list] (Go's order is unspecified); the first
    failure ends it. *)
Fixpoint resolveEach (fuel : nat) (schemas : gmap string TableSchema)
    (entries : list (string * TableSchema))
    (resolvedSchemas : gmap string ResolvedTableSchema)
  : option (error + gmap string ResolvedTableSchema) :=
  match entries with
  | [] => Some (inr resolvedSchemas)
  | (table, schema) :: rest =>
      match resolveColumns fuel schema schemas with
      | None => None
      | Some (inl err) => Some (inl err)
      | Some (inr resolvedColumns) =>
          resolveEach fuel schemas rest
            (<[table := {| originalSchema := schema;
                           columns := resolvedColumns;
                           columnsMap := columnsMapOf resolvedColumns |}]>
               resolvedSchemas)
      end
  end.

Definition mapSchemasToResolvedSchemas (fuel : nat) (schemas : gmap string TableSchema)
  : option (error + gmap string ResolvedTableSchema) :=
  resolveEach fuel schemas (map_to_list schemas) ∅.

(** *** Integrity of the schemas *)

Definition validColumnTypes : gset string :=
  {[ "boolean"; "integer"; "long"; "string"; "date"; "datetime" ]}.

(** [UnknownColumnTypeError]: the entity of the schema, the path of the
    column and its type. *)
Inductive UnknownColumnTypeError : Type :=
| unknownColumnType (schema column columnType : string).

(** The loop of [TableSchema.ValidateIntegrity] over the columns. *)
Fixpoint validateColumnTypes (entity : string) (mapper : EnumMapper)
    (columns : list TableSchemaColumn) : option UnknownColumnTypeError :=
  match columns with
  | [] => None
  | column :: rest =>
      let columnType := Type_ column in
      if decide (ToLower columnType ∈ validColumnTypes)
      then validateColumnTypes entity mapper rest
      else
        match EnumMapper_Enum mapper columnType with
        | (_, Some err) => Some (unknownColumnType entity (Path column) columnType)
        | (_, None) => validateColumnTypes entity mapper rest
        end
  end.

Definition TableSchema_ValidateIntegrity (schema : TableSchema) (mapper : EnumMapper)
  : option UnknownColumnTypeError :=
  validateColumnTypes (Entity schema) mapper (Columns schema).

Record SchemaMapper : Type := {
  schemas : gmap string TableSchema;
  resolvedSchemas : gmap string ResolvedTableSchema;
}.

(** The loop of [SchemaMapper.ValidateIntegrity], over the schemas in the
    order of [map_to_list] (Go's order is unspecified). *)
Fixpoint validateSchemas (mapper : EnumMapper) (entries : list (string * TableSchema))
  : option UnknownColumnTypeError :=
  match entries with
  | [] => None
  | (_, schema) :: rest =>
      match TableSchema_ValidateIntegrity schema mapper with
      | Some err => Some err
      | None => validateSchemas mapper rest
      end
  end.

Definition SchemaMapper_ValidateIntegrity (schemaMapper : SchemaMapper)
    (mapper : EnumMapper) : option UnknownColumnTypeError :=
  validateSchemas mapper (map_to_list (schemas schemaMapper)).

(** [EnumMapper.TranslationKeyInEnum]. *)
Definition EnumMapper_TranslationKeyInEnum (enumMapper : EnumMapper) (enum key : string)
  : string * option error :=
  match EnumMapper_Enum enumMapper enum with
  | (_, Some err) => ("", Some err)
  | (None, None) => ("", Some ErrUnknownEnumKey)
  | (Some fetchedEnum, None) => Enum_TranslationKey fetchedEnum key
  end.

End config.

(** ** Go's [strconv] *)

Module strconv.

(** [strconv.FormatInt z 10] and [strconv.FormatUint z 10]. *)
Definition FormatInt (z : Z) : string := NilZero.string_of_int (Z.to_int z).
Definition FormatUint (z : Z) : string := NilZero.string_of_int (Z.to_int z).

Definition digitValue (c : ascii) : option Z :=
  let n := nat_of_ascii c in
  if (48 <=? n)%nat && (n <=? 57)%nat then Some (Z.of_nat (n - 48)) else None.

Fixpoint parseDigits (acc : Z) (s : string) : option Z :=
  match s with
  | EmptyString => Some acc
  | String c rest =>
      match digitValue c with
      | Some d => parseDigits (10 * acc + d)%Z rest
      | None => None
      end
  end.

Definition maxInt64 : Z := (2 ^ 63 - 1)%Z.
Definition minInt64 : Z := (- 2 ^ 63)%Z.

(** The value [strconv.ParseInt s 10 64] returns when its error is
    dropped: 0 on a syntax error, the nearest bound when out of range. *)
Definition ParseInt (s : string) : Z :=
  let '(negative, digits) :=
    match s with
    | String "+" rest => (false, rest)
    | String "-" rest => (true, rest)
    | _ => (false, s)
    end in
  match digits with
  | EmptyString => 0%Z
  | _ =>
      match parseDigits 0 digits with
      | None => 0%Z
      | Some un =>
          if negative then (if (2 ^ 63 <? un)%Z then minInt64 else - un)%Z
          else (if (2 ^ 63 <=? un)%Z then maxInt64 else un)
      end
  end.

End strconv.

(** ** Package [filter] *)

Module filter.
Import strings.

(** [type Operator string]. *)
Definition Operator := string.
Definition OperatorLike : Operator := "LIKE".
Definition OperatorNotLike : Operator := "NOT LIKE".
Definition OperatorEqual : Operator := "=".
Definition OperatorNotEqual : Operator := "!=".
Definition OperatorGreater : Operator := "GREATER".
Definition OperatorGreaterEquals : Operator := "GREATER_EQUALS".
Definition OperatorLesser : Operator := "LESSER".
Definition OperatorLesserEquals : Operator := "LESSER_EQUALS".

(** The [Filter] interface. *)
Record Filter : Type := {
  ParseValue : Value → outcome string;
  Operator_ : Value → tableaux.FilterMode → Operator * option error;
}.

(** [Common.Operator]. *)
Definition Common_Operator (_ : Value) (filterMode : tableaux.FilterMode)
  : Operator * option error :=
  if decide (filterMode = tableaux.FilterEquals) then (OperatorEqual, None)
  else if decide (filterMode = tableaux.FilterGreater) then (OperatorGreater, None)
  else if decide (filterMode = tableaux.FilterGreaterEquals) then (OperatorGreaterEquals, None)
  else if decide (filterMode = tableaux.FilterLesser) then (OperatorLesser, None)
  else if decide (filterMode = tableaux.FilterLesserEquals) then (OperatorLesserEquals, None)
  else if decide (filterMode = tableaux.FilterNotEquals) then (OperatorNotEqual, None)
  else ("", Some (ErrorMessage ("unknown filter mode " ++ filterMode))).

Definition cannotParse : string := "todo - cannot parse value!".

Definition Boolean_ParseValue (value : Value) : outcome string :=
  match value with
  | VBool boolean => if boolean then Returned "true" else Returned "false"
  | VString booleanString =>
      let boolean :=
        String.eqb booleanString "1" || String.eqb (ToLower booleanString) "true" in
      if boolean then Returned "true" else Returned "false"
  | _ => Panicked cannotParse
  end.

Definition Numeric_ParseValue (value : Value) : outcome string :=
  match value with
  | VUint64 uint64Value => Returned (strconv.FormatUint uint64Value)
  | VInt64 int64Value => Returned (strconv.FormatInt int64Value)
  | VString stringValue =>
      let intValue := strconv.ParseInt stringValue in
      Returned (strconv.FormatInt intValue)
  | _ => Panicked cannotParse
  end.

Definition PlainString_ParseValue (value : Value) : outcome string :=
  match value with
  | VString stringVal => Returned ("'" ++ stringVal ++ "'")
  | _ => Panicked cannotParse
  end.

Definition RegexString_ParseValue (value : Value) : outcome string :=
  match value with
  | VString stringVal => Returned ("'" ++ ReplaceAll stringVal ".*" "%" ++ "'")
  | _ => Panicked cannotParse
  end.

Definition RegexString_Operator (value : Value) (filterMode : tableaux.FilterMode)
  : Operator * option error :=
  match value with
  | VString stringVal =>
      if Contains stringVal ".*" then
        if decide (filterMode = tableaux.FilterEquals) then (OperatorLike, None)
        else if decide (filterMode = tableaux.FilterNotEquals) then (OperatorNotLike, None)
        else Common_Operator value filterMode
      else Common_Operator value filterMode
  | _ => ("", Some (ErrorMessage "cannot cast to string"))
  end.

Definition Boolean : Filter :=
  {| ParseValue := Boolean_ParseValue; Operator_ := Common_Operator |}.
Definition Numeric : Filter :=
  {| ParseValue := Numeric_ParseValue; Operator_ := Common_Operator |}.
Definition PlainString : Filter :=
  {| ParseValue := PlainString_ParseValue; Operator_ := Common_Operator |}.
Definition RegexString : Filter :=
  {| ParseValue := RegexString_ParseValue; Operator_ := RegexString_Operator |}.

End filter.

(** ** Package [datasource]: the request *)

Module datasource.

Record Filter : Type := {
  filterMode : tableaux.FilterMode;
  value : Value;
}.

Record FilterGroup : Type := {
  path : string;
  filters : list Filter;
}.

Definition NewSimpleFilterGroup (path : string) (filterMode : tableaux.FilterMode)
    (values : list Value) : FilterGroup :=
  {| path := path;
     filters := (λ value, {| filterMode := filterMode; value := value |}) <$> values |}.

Record Order : Type := {
  Order_path : string;
  direction : tableaux.Order;
  sortKeys : list Value;
}.

(** The [PathResolver] interface: its method [ResolvePathName]. *)
Definition PathResolver : Type := config.TableSchemaColumn → string.

End datasource.

(** ** Package [order] *)

Module order.
Import config.

(** [ResolvedOrder]; [SortKeys] is [None] for the nil slice. *)
Record ResolvedOrder : Type := {
  Path : string;
  Dir : tableaux.Order;
  SortKeys : option (list Value);
}.

Definition zeroResolvedOrder : ResolvedOrder :=
  {| Path := ""; Dir := ""; SortKeys := None |}.

(** The [Sorter] interface. *)
Record Sorter : Type := {
  OrderColumn :
    string → TableSchemaColumn → tableaux.Order → string → ResolvedOrder * option error;
}.

Definition Direct_OrderColumn (path : string) (column : TableSchemaColumn)
    (sortOrder : tableaux.Order) (locale : string) : ResolvedOrder * option error :=
  ({| Path := path; Dir := sortOrder; SortKeys := None |}, None).

Definition Direct : Sorter := {| OrderColumn := Direct_OrderColumn |}.

Section EnumSorter.
Variable mapper : EnumMapper.
Variable translator : Translator.

Definition entriesSortedByKey (enum : Enum) : list KeyWithTranslation :=
  let keys := Entries enum in
  sortSlice (λ a b, String.ltb (EnumKey a) (EnumKey b)) keys.

(** The translation a comparison looks at; a failed lookup is only
    logged and its text (a placeholder, or [""]) is compared. *)
Definition translationOf (locale translationSuffix : string)
    (entry : KeyWithTranslation) : string :=
  (Translator_Translate translator locale (TranslationKey entry ++ translationSuffix)).1.

Definition entriesSortedByTranslationWithSuffix (enum : Enum) (locale : string)
    (translationSuffix : string) (reverse : bool) : list KeyWithTranslation :=
  let keys := Entries enum in
  sortSlice
    (λ a b,
       let aTrans := translationOf locale translationSuffix a in
       let bTrans := translationOf locale translationSuffix b in
       xorb reverse (String.ltb aTrans bTrans))
    keys.

Fixpoint entriesAreTheSame (a b : list KeyWithTranslation) : bool :=
  match a, b with
  | [], [] => true
  | val :: a', val' :: b' => bool_decide (val = val') && entriesAreTheSame a' b'
  | _, _ => false
  end.

Definition orderColumnWithSortFunction (path : string) (column : TableSchemaColumn)
    (direction : tableaux.Order) (locale : string)
    (sortFn : Enum → string → bool → list KeyWithTranslation)
  : ResolvedOrder * option error :=
  match EnumMapper_Enum mapper (Type_ column) with
  | (_, Some err) => (zeroResolvedOrder, Some err)
  | (None, None) => (zeroResolvedOrder, None)
  | (Some enum, None) =>
      let originalEntries := entriesSortedByKey enum in
      let sortedEntries := sortFn enum locale false in
      if entriesAreTheSame originalEntries sortedEntries then
        Direct_OrderColumn path column direction locale
      else if entriesAreTheSame originalEntries (sortFn enum locale true) then
        Direct_OrderColumn path column (tableaux.Reverse direction) locale
      else
        let keys := (λ entry, VString (EnumKey entry)) <$> sortedEntries in
        ({| Path := path; Dir := direction; SortKeys := Some keys |}, None)
  end.

(** [EnumSorter], [ShortEnumSorter] and [LongEnumSorter] differ in the
    suffix of the translation key: [""], [".short"] and [".long"]. *)
Definition sorterWithSuffix (translationSuffix : string) : Sorter :=
  {| OrderColumn := λ path column direction locale,
       orderColumnWithSortFunction path column direction locale
         (λ enum locale reverse,
            entriesSortedByTranslationWithSuffix enum locale translationSuffix reverse) |}.

Definition EnumSorter : Sorter := sorterWithSuffix "".
Definition ShortEnumSorter : Sorter := sorterWithSuffix ".short".
Definition LongEnumSorter : Sorter := sorterWithSuffix ".long".
End EnumSorter.

End order.

(** ** Package [path]: from a column to its SELECT expression *)

Module path.
Import strings.

Definition SimpleResolver_ResolvePathName (columnSchema : config.TableSchemaColumn)
  : string :=
  let path := config.Path columnSchema in
  let pathParts := Split path underscore in
  let joinedPath := default "" (head pathParts) in
  if (1 <? length pathParts)%nat
  then util.DescriptorToIdentifier
         (Join (take (length pathParts - 1) pathParts) "_"
            ++ "." ++ default "" (last pathParts))
  else joinedPath.

Definition SizeResolver_ResolvePathName (columnSchema : config.TableSchemaColumn)
  : string :=
  let path := config.Path columnSchema in
  util.DescriptorToIdentifier (path ++ "." ++ "count_result").

End path.

(** ** Package [sqlsource]: query builder and request planning *)

Module sqlsource.
Import strings.

(** The part of the [QueryBuilder] interface that orders and filters
    are compiled with. *)
Record QueryBuilder : Type := {
  qbOrderColumn : string → tableaux.Order → string;
  qbOrderColumnByArray : string → list Value → tableaux.Order → string;
  qbFilterStringFromValues :
    string → filter.Filter → filter.Operator → list Value → outcome (string * option error);
  qbFilterStringFromValue : string → filter.Operator → string → string;
}.

(** *** Ordering *)

Fixpoint stringSlicesEqual (a b : list string) : bool :=
  match a, b with
  | [], [] => true
  | val :: a', val' :: b' => String.eqb val val' && stringSlicesEqual a' b'
  | _, _ => false
  end.

(** The dynamic types behind a [sort.Interface] value in [OrderColumn]:
    a [sort.StringSlice], or the [*sort.reverse] wrapper that
    [sort.Reverse] returns. *)
Inductive SortInterface : Type :=
| StringSlice (data : list string)
| reverse (inner : SortInterface).

Definition sort_Reverse (data : SortInterface) : SortInterface := reverse data.

(** The type assertion [x.(sort.StringSlice)]: it panics unless the
    dynamic type of [x] is [sort.StringSlice]. *)
Definition assertStringSlice (x : SortInterface) : outcome (list string) :=
  match x with
  | StringSlice data => Returned data
  | reverse _ =>
      Panicked "interface conversion: sort.Interface is *sort.reverse, not sort.StringSlice"
  end.

(** The loop that turns the sort keys into strings; [None] is the
    bail-out on a key that is neither string, uint64 nor int64. *)
Fixpoint sanitizeKeys (predefinedSortKeys : list Value) : option (list string) :=
  match predefinedSortKeys with
  | [] => Some []
  | value :: rest =>
      match value with
      | VString converted => (converted ::.) <$> sanitizeKeys rest
      | VUint64 converted => (strconv.FormatUint converted ::.) <$> sanitizeKeys rest
      | VInt64 converted => (strconv.FormatInt converted ::.) <$> sanitizeKeys rest
      | _ => None
      end
  end.

Definition errorText (err : error) : string :=
  match err with
  | ErrUnknownEnum => "unknown enum"
  | ErrUnknownEnumKey => "unknown enum key"
  | ErrUnknownLanguage => "unknown language"
  | ErrUnknownTranslation => "unknown translation key"
  | ErrUnknownSchema => "unknown schema"
  | ErrUnknownColumn => "unknown column"
  | UnresolvableSchemaError schema => "cannot resolve table schema " ++ schema
  | ErrorMessage text => text
  end.

(** The call of the column's sorter at the end of [OrderColumn]. *)
Definition orderBySorter (queryBuilder : QueryBuilder) (path : string)
    (column : config.TableSchemaColumn) (sorter : order.Sorter)
    (order : datasource.Order) (locale : string) : outcome string :=
  match order.OrderColumn sorter path column (datasource.direction order) locale with
  | (_, Some err) => Panicked (errorText err)
  | (orderRequest, None) =>
      match order.SortKeys orderRequest with
      | Some keys =>
          Returned (qbOrderColumnByArray queryBuilder (order.Path orderRequest) keys
                      (order.Dir orderRequest))
      | None =>
          Returned (qbOrderColumn queryBuilder (order.Path orderRequest)
                      (order.Dir orderRequest))
      end
  end.

Definition OrderColumn (queryBuilder : QueryBuilder) (path : string)
    (column : config.TableSchemaColumn) (sorter : order.Sorter)
    (order : datasource.Order) (locale : string) : outcome string :=
  let predefinedSortKeys := datasource.sortKeys order in
  match (if (0 <? length predefinedSortKeys)%nat
         then sanitizeKeys predefinedSortKeys else None) with
  | Some sanitizedKeys =>
      let sortedEntries := sortStrings sanitizedKeys in
      if stringSlicesEqual sanitizedKeys sortedEntries then
        Returned (qbOrderColumn queryBuilder path (datasource.direction order))
      else
        reversedEntries ← assertStringSlice (sort_Reverse (StringSlice sortedEntries));
        let reversedEntries := sortStrings reversedEntries in
        if stringSlicesEqual sanitizedKeys reversedEntries then
          Returned (qbOrderColumn queryBuilder path
                      (tableaux.Reverse (datasource.direction order)))
        else
          Returned (qbOrderColumnByArray queryBuilder path predefinedSortKeys
                      (datasource.direction order))
  | None => orderBySorter queryBuilder path column sorter order locale
  end.

(** *** Filtering *)

(** The buckets of one filter group: the values by operator. *)
Fixpoint bucketFilters (filtery : filter.Filter) (filters : list datasource.Filter)
    (filterModeMap : gmap filter.Operator (list Value))
  : error + gmap filter.Operator (list Value) :=
  match filters with
  | [] => inr filterModeMap
  | filterGroupFilter :: rest =>
      match filter.Operator_ filtery (datasource.value filterGroupFilter)
              (datasource.filterMode filterGroupFilter) with
      | (_, Some err) => inl err
      | (operator, None) =>
          bucketFilters filtery rest
            (<[operator := (default [] (filterModeMap !! operator)
                              ++ [datasource.value filterGroupFilter])%list]> filterModeMap)
      end
  end.

(** The loop over the buckets, in the order of [map_to_list] (Go's order
    is unspecified). *)
Fixpoint orFiltersOf (queryBuilder : QueryBuilder) (path : string)
    (filtery : filter.Filter) (buckets : list (filter.Operator * list Value))
  : outcome (error + list string) :=
  match buckets with
  | [] => Returned (inr [])
  | (filterMode, values) :: rest =>
      r ← qbFilterStringFromValues queryBuilder path filtery filterMode values;
      match r with
      | (_, Some err) => Returned (inl err)
      | (orFilter, None) =>
          rs ← orFiltersOf queryBuilder path filtery rest;
          match rs with
          | inl err => Returned (inl err)
          | inr orFilters => Returned (inr (orFilter :: orFilters))
          end
      end
  end.

Fixpoint andFiltersOf (queryBuilder : QueryBuilder) (path : string)
    (filtery : filter.Filter) (filterGroups : list datasource.FilterGroup)
  : outcome (error + list string) :=
  match filterGroups with
  | [] => Returned (inr [])
  | filterGroup :: rest =>
      match bucketFilters filtery (datasource.filters filterGroup) ∅ with
      | inl err => Returned (inl err)
      | inr filterModeMap =>
          r ← orFiltersOf queryBuilder path filtery (map_to_list filterModeMap);
          match r with
          | inl err => Returned (inl err)
          | inr orFilters =>
              rs ← andFiltersOf queryBuilder path filtery rest;
              match rs with
              | inl err => Returned (inl err)
              | inr andFilters => Returned (inr (Join orFilters " OR " :: andFilters))
              end
          end
      end
  end.

Definition FilterColumn (queryBuilder : QueryBuilder) (path : string)
    (filtery : filter.Filter) (filterGroups : list datasource.FilterGroup)
  : outcome (string * option error) :=
  r ← andFiltersOf queryBuilder path filtery filterGroups;
  match r with
  | inl err => Returned ("", Some err)
  | inr andFilters => Returned (Join andFilters " AND ", None)
  end.

(** *** [CommonQueryBuilder] *)

Definition Common_OrderColumn (path : string) (direction : tableaux.Order) : string :=
  path ++ " " ++ direction.

(** What [%v] prints. *)
Definition formatValue (value : Value) : string :=
  match value with
  | VString s => s
  | VInt64 z => strconv.FormatInt z
  | VUint64 z => strconv.FormatUint z
  | VBool b => if b then "true" else "false"
  | VOther rendering => rendering
  end.

Definition caseOf (index : nat) (value : Value) : string :=
  match value with
  | VString s => "WHEN '" ++ s ++ "' THEN " ++ strconv.FormatInt (Z.of_nat index)
  | _ => "WHEN " ++ formatValue value ++ " THEN " ++ strconv.FormatInt (Z.of_nat index)
  end.

Definition Common_OrderColumnByArray (path : string) (values : list Value)
    (direction : tableaux.Order) : string :=
  let cases := imap caseOf values in
  "CASE " ++ path ++ " " ++ Join cases " " ++ " ELSE -1 END " ++ direction.

Definition Common_FilterStringFromValue (path : string) (operator : filter.Operator)
    (value : string) : string :=
  path ++ " " ++ operator ++ " " ++ value.

Definition parseValues (filter : filter.Filter) (values : list Value)
  : outcome (list string) :=
  mapM (filter.ParseValue filter) values.

Definition Common_FilterStringFromValues (path : string) (filtery : filter.Filter)
    (operator : filter.Operator) (values : list Value)
  : outcome (string * option error) :=
  parsedValues ← parseValues filtery values;
  if decide (length values = 1%nat) then
    Returned (Common_FilterStringFromValue path operator (default "" (head parsedValues)),
              None)
  else
      if decide (operator = filter.OperatorEqual) then
        Returned (path ++ " IN (" ++ Join parsedValues "," ++ ")", None)
      else if decide (operator = filter.OperatorNotEqual) then
        Returned (path ++ " NOT IN (" ++ Join parsedValues "," ++ ")", None)
      else if decide (operator ∈ [filter.OperatorGreater; filter.OperatorGreaterEquals;
                                   filter.OperatorLesser; filter.OperatorLesserEquals;
                                   filter.OperatorLike]) then
        let orChainedValues :=
          (λ value, Common_FilterStringFromValue path operator value) <$> parsedValues in
        Returned (Join orChainedValues " OR ", None)
      else Returned ("", Some (ErrorMessage ("unknown operator " ++ operator))).

Definition CommonQueryBuilder : QueryBuilder :=
  {| qbOrderColumn := Common_OrderColumn;
     qbOrderColumnByArray := Common_OrderColumnByArray;
     qbFilterStringFromValues := Common_FilterStringFromValues;
     qbFilterStringFromValue := Common_FilterStringFromValue |}.

(** *** Request planning *)

(** [mergedParticipatingPaths]: the set of the paths that are selected,
    ordered by or filtered on. *)
Definition mergedParticipatingPaths (columns : list config.TableSchemaColumn)
    (orders : list datasource.Order) (filters : list datasource.FilterGroup)
  : gset string :=
  list_to_set (config.Path <$> columns)
    ∪ list_to_set (datasource.Order_path <$> orders)
    ∪ list_to_set (datasource.path <$> filters).

(** The join paths one column path asks for: its prefixes of two
    segments and more, up to all but the last segment. *)
Definition joinPathsOf (columnPath : string) : list string :=
  let pathParts := Split columnPath underscore in
  if (2 <? length pathParts)%nat
  then (λ i, Join (take i pathParts) "_") <$> seq 2 (length pathParts - 2)
  else [].

Definition calculatePathsForJoins (columns : list config.TableSchemaColumn)
    (orders : list datasource.Order) (filters : list datasource.FilterGroup)
  : list string :=
  let participatingPaths := mergedParticipatingPaths columns orders filters in
  if decide (size participatingPaths = 0%nat) then []
  else
    let joinPaths : gset string :=
      list_to_set (elements participatingPaths ≫= joinPathsOf) in
    sortStrings (elements joinPaths).

Fixpoint adviseDeferredLoading (columns : list config.TableSchemaColumn)
    (orders : list datasource.Order) (schema : config.ResolvedTableSchema) : bool :=
  match orders with
  | [] => false
  | columnOrder :: rest =>
      if (2 <? length (Split (datasource.Order_path columnOrder) underscore))%nat then true
      else
        match config.Column schema (datasource.Order_path columnOrder) with
        | (_, Some err) => false
        | (resolvedColumn, None) =>
            if decide (config.PathResolver resolvedColumn = "SizePathResolver") then true
            else adviseDeferredLoading columns rest schema
        end
  end.

End sqlsource.

(** ** Package [sqlsource]: the key resolver *)

Module keyresolver.

Record TableDoublet : Type := {
  OriginName : string;
  TargetName : string;
}.

Global Instance TableDoublet_eq_dec : EqDecision TableDoublet.
Proof. solve_decision. Defined.

Global Instance TableDoublet_countable : Countable TableDoublet.
Proof.
  apply (inj_countable' (λ d, (OriginName d, TargetName d))
           (λ p, {| OriginName := p.1; TargetName := p.2 |})).
  by intros [].
Defined.

Record TableKeyDoublet : Type := {
  PrimaryKey : string;
  ForeignKey : string;
}.

Record CommonKeyResolver : Type := {
  primaryKeyMap : gmap string (list string);
  foreignKeyMap : gmap TableDoublet (list TableKeyDoublet);
}.

(** A table that the map does not have reads as the nil slice. *)
Definition ResolvePrimaryKey (keyResolver : CommonKeyResolver) (tableName : string)
  : list string :=
  default [] (primaryKeyMap keyResolver !! util.DescriptorToIdentifier tableName).

Definition ResolveRelation (keyResolver : CommonKeyResolver)
    (originName targetName : string) : list TableKeyDoublet :=
  default []
    (foreignKeyMap keyResolver
       !! {| OriginName := util.DescriptorToIdentifier originName;
             TargetName := util.DescriptorToIdentifier targetName |}).

End keyresolver.

(** ** Package [sqlsource]: the connector and its validation of requests *)

Module handler.
Import strings sqlsource.

(** [Connector], without its database connector. *)
Record Connector : Type := {
  enumMapper : config.EnumMapper;
  schemaMapper : config.SchemaMapper;
  translator : config.Translator;
  resolvers : gmap string datasource.PathResolver;
  sorters : gmap string order.Sorter;
  filters : gmap string filter.Filter;
}.

(** The struct that [NewConnector] builds, with the path resolvers,
    sorters and filters by the names that schema columns refer to. *)
Definition newConnector (enumMapper : config.EnumMapper)
    (translator : config.Translator) (schemaMapper : config.SchemaMapper) : Connector :=
  {| enumMapper := enumMapper;
     schemaMapper := schemaMapper;
     translator := translator;
     resolvers :=
       {[ "" := path.SimpleResolver_ResolvePathName;
          "SizePathResolver" := path.SizeResolver_ResolvePathName ]};
     sorters :=
       {[ "" := order.Direct;
          "EnumOrder" := order.EnumSorter enumMapper translator;
          "ShortEnumOrder" := order.ShortEnumSorter enumMapper translator;
          "LongEnumOrder" := order.LongEnumSorter enumMapper translator ]};
     filters :=
       {[ "BooleanFilter" := filter.Boolean;
          "StringFilter" := filter.PlainString;
          "StringRegExFilter" := filter.RegexString;
          "EnumFilter" := filter.PlainString;
          "NumericFilter" := filter.Numeric;
          "DateFilter" := filter.PlainString;
          "DateTimeFilter" := filter.PlainString ]} |}.

Definition NewConnector (enumMapper : config.EnumMapper)
    (translator : config.Translator) (schemaMapper : config.SchemaMapper)
  : config.UnknownColumnTypeError + Connector :=
  match config.SchemaMapper_ValidateIntegrity schemaMapper enumMapper with
  | Some err => inl err
  | None => inr (newConnector enumMapper translator schemaMapper)
  end.

(** The three loops of [ValidateRequest]. *)
Fixpoint validateColumns (th : Connector) (schema : config.ResolvedTableSchema)
    (columns : list config.TableSchemaColumn) : option error :=
  match columns with
  | [] => None
  | column :: rest =>
      let columnPath := config.Path column in
      match config.Column schema columnPath with
      | (_, Some err) => Some (ErrorMessage ("unknown column " ++ columnPath))
      | (_, None) =>
          match resolvers th !! config.PathResolver column with
          | None =>
              Some (ErrorMessage ("unknown path resolver " ++ config.PathResolver column
                                    ++ " on column " ++ columnPath))
          | Some pathResolver =>
              match filters th !! config.Filter column with
              | None =>
                  Some (ErrorMessage ("unknown filter " ++ config.Filter column
                                        ++ " on column " ++ columnPath))
              | Some columnFilter =>
                  match sorters th !! config.Order column with
                  | None =>
                      Some (ErrorMessage ("unknown order " ++ config.Order column
                                            ++ " on column " ++ columnPath))
                  | Some columnOrder => validateColumns th schema rest
                  end
              end
          end
      end
  end.

Fixpoint validateFilters (schema : config.ResolvedTableSchema)
    (filters : list datasource.FilterGroup) : option error :=
  match filters with
  | [] => None
  | filterGroup :: rest =>
      let columnPath := datasource.path filterGroup in
      match config.Column schema columnPath with
      | (_, Some ErrUnknownColumn) =>
          Some (ErrorMessage ("unknown filter column " ++ columnPath))
      | _ => validateFilters schema rest
      end
  end.

Fixpoint validateOrders (schema : config.ResolvedTableSchema)
    (orders : list datasource.Order) : option error :=
  match orders with
  | [] => None
  | column :: rest =>
      let columnPath := datasource.Order_path column in
      match config.Column schema columnPath with
      | (_, Some ErrUnknownColumn) =>
          Some (ErrorMessage ("unknown order column " ++ columnPath))
      | _ => validateOrders schema rest
      end
  end.

Definition ValidateRequest (th : Connector) (columns : list config.TableSchemaColumn)
    (schema : config.ResolvedTableSchema) (filters : list datasource.FilterGroup)
    (orders : list datasource.Order) (globalSearch : string) (limit offset : N)
    (locale : string) : option error :=
  if decide (length columns = 0%nat) then Some (ErrorMessage "no columns selected")
  else
    match config.Translator_Language (translator th) locale with
    | (_, Some err) => Some (ErrorMessage ("unknown locale " ++ locale))
    | (_, None) =>
        match validateColumns th schema columns with
        | Some err => Some err
        | None =>
            match validateFilters schema filters with
            | Some err => Some err
            | None => validateOrders schema orders
            end
        end
    end.

(** [calculatePathsForCountJoins]: the participating paths whose column
    the schema knows and resolves with the size resolver, in the order of
    [elements] (Go ranges over the map in an unspecified order). *)
Definition calculatePathsForCountJoins (columns : list config.TableSchemaColumn)
    (orders : list datasource.Order) (filters : list datasource.FilterGroup)
    (schema : config.ResolvedTableSchema) : list string :=
  let participatingPaths := mergedParticipatingPaths columns orders filters in
  if decide (size participatingPaths = 0%nat) then []
  else
    List.filter
      (λ columnPath,
         match config.Column schema columnPath with
         | (columnSchema, None) =>
             bool_decide (config.PathResolver columnSchema = "SizePathResolver")
         | (_, Some err) => false
         end)
      (elements participatingPaths).

End handler.

(** ** Predicates the statements are phrased with *)

Module shape.
Import strings.





(** The callback of [entriesSortedByKey]. *)
Definition byKey (a b : config.KeyWithTranslation) : bool :=
  String.ltb (config.EnumKey a) (config.EnumKey b).

(** An order path that crosses a join (more than two segments) or that
    the schema resolves to a column with the size path resolver. *)
Definition crossesJoinOrCounts (schema : config.ResolvedTableSchema)
    (columnOrder : datasource.Order) : bool :=
  (2 <? length (Split (datasource.Order_path columnOrder) underscore))%nat
  || match config.Column schema (datasource.Order_path columnOrder) with
     | (resolvedColumn, None) =>
         bool_decide (config.PathResolver resolvedColumn = "SizePathResolver")
     | (_, Some _) => false
     end.

(** The order path is a column of the resolved schema. *)
Definition knownColumn (schema : config.ResolvedTableSchema)
    (columnOrder : datasource.Order) : Prop :=
  is_Some (config.columnsMap schema !! datasource.Order_path columnOrder).


End shape.

(** ** Sample requests and schemas *)

Module sample.

Definition orderOn (path : string) : datasource.Order :=
  {| datasource.Order_path := path; datasource.direction := tableaux.OrderAsc;
     datasource.sortKeys := [] |}.

Definition columnOn (path pathResolver : string) : config.TableSchemaColumn :=
  {| config.Title := ""; config.Path := path; config.Type_ := "string";
     config.Filter := ""; config.Order := ""; config.PathResolver := pathResolver;
     config.FrontendHints := ∅ |}.

Definition schemaOf (entity : string) (exclusions : list string)
    (columns : list config.TableSchemaColumn) : config.TableSchema :=
  {| config.Entity := entity; config.Extensions := [];
     config.Exclusions := exclusions; config.Columns := columns |}.

Definition resolvedOf (entity : string) (columns : list config.TableSchemaColumn)
  : config.ResolvedTableSchema :=
  {| config.originalSchema := schemaOf entity [] columns;
     config.columns := columns;
     config.columnsMap := config.columnsMapOf columns |}.

(** The schemas of the extension scenario: [companies] embeds
    [subfolder/abstract_entity] and excludes one of its columns. *)
Definition abstractEntity : config.TableSchema :=
  schemaOf "abstractEntity" []
    [columnOn "abstractEntity_uuid" ""; columnOn "abstractEntity_createDateUtc" "";
     columnOn "abstractEntity_lastModificationDateUtc" ""].

Definition companies : config.TableSchema :=
  {| config.Entity := "company";
     config.Extensions :=
       [{| config.ExtensionTitle := "columns.abstract.system";
           config.Table := "subfolder/abstract_entity";
           config.Key := "" |}];
     config.Exclusions := ["company_lastModificationDateUtc"];
     config.Columns := [columnOn "company_companyKey" ""; columnOn "company_name" ""] |}.

Definition companySchemas : gmap string config.TableSchema :=
  {[ "companies" := companies; "subfolder/abstract_entity" := abstractEntity ]}.

Definition companiesResolved : config.ResolvedTableSchema :=
  {| config.originalSchema := companies;
     config.columns :=
       [columnOn "company_companyKey" ""; columnOn "company_name" "";
        columnOn "company_uuid" ""; columnOn "company_createDateUtc" ""];
     config.columnsMap :=
       config.columnsMapOf
         [columnOn "company_companyKey" ""; columnOn "company_name" "";
          columnOn "company_uuid" ""; columnOn "company_createDateUtc" ""] |}.

(** A schema whose only exclusion is the empty string. *)
Definition ticket : config.TableSchema :=
  schemaOf "ticket" [""] [columnOn "ticket_title" ""].

Definition ticketResolved : config.ResolvedTableSchema :=
  {| config.originalSchema := ticket;
     config.columns := [columnOn "ticket_title" ""];
     config.columnsMap := config.columnsMapOf [columnOn "ticket_title" ""] |}.

(** An enum of two keys whose German translations sort the other way
    round, and an enum of one key. *)
Definition sizes : config.Enum := {[ "LARGE" := "enum.size.large"; "SMALL" := "enum.size.small" ]}.
Definition single : config.Enum := {[ "ONLY" := "enum.single.only" ]}.

Definition sampleMapper : config.EnumMapper :=
  {| config.enums := {[ "Size" := sizes; "Single" := single ]} |}.

Definition sampleTranslator : config.Translator :=
  {| config.languages :=
       {[ "de" := {[ "enum.size.large" := "gross"; "enum.size.small" := "Klein";
                     "enum.single.only" := "einzig" ]} ]} |}.

Definition enumColumn (path type : string) : config.TableSchemaColumn :=
  {| config.Title := ""; config.Path := path; config.Type_ := type;
     config.Filter := ""; config.Order := "EnumOrder"; config.PathResolver := "";
     config.FrontendHints := ∅ |}.

End sample.

(** ** Predicates and sample data of the further properties *)

Module further.
Import strings.

Fixpoint allBytes (p : ascii → bool) (s : string) : bool :=
  match s with
  | EmptyString => true
  | String c rest => p c && allBytes p rest
  end.

(** No byte is an upper-case ASCII letter. *)
Definition noUpperCase (s : string) : bool := allBytes (λ c, negb (isUpper c)) s.

(** Some non-empty exclusion of the schema is a prefix of the column's path. *)
Definition excluded (schema : config.TableSchema) (column : config.TableSchemaColumn)
  : bool :=
  existsb (λ exclusion, negb (String.eqb exclusion "")
                        && HasPrefix (config.Path column) exclusion)
    (config.Exclusions schema).

(** A sort key that [OrderColumn] can turn into a string. *)
Definition coercibleKey (value : Value) : bool :=
  match value with
  | VString _ | VInt64 _ | VUint64 _ => true
  | _ => false
  end.

(** The byte [sep] does not occur in the string. *)
Definition noByte (sep : ascii) (s : string) : bool :=
  allBytes (λ c, negb (Ascii.eqb c sep)) s.

(** A schema that extends a schema nobody has. *)
Definition orphan : config.TableSchema :=
  {| config.Entity := "orphan";
     config.Extensions :=
       [{| config.ExtensionTitle := "columns.missing";
           config.Table := "missing";
           config.Key := "" |}];
     config.Exclusions := [];
     config.Columns := [sample.columnOn "orphan_name" ""] |}.

(** A schema that extends itself. *)
Definition node : config.TableSchema :=
  {| config.Entity := "node";
     config.Extensions :=
       [{| config.ExtensionTitle := "columns.parent";
           config.Table := "nodes";
           config.Key := "parent" |}];
     config.Exclusions := [];
     config.Columns := [sample.columnOn "node_name" ""] |}.

Definition nodeSchemas : gmap string config.TableSchema := {[ "nodes" := node ]}.

(** A schema with two columns of one path, which it excludes. *)
Definition item : config.TableSchema :=
  sample.schemaOf "item" ["item_tag"]
    [sample.columnOn "item_name" ""; sample.columnOn "item_tag" "";
     sample.columnOn "item_tag" "SizePathResolver"].

(** An enum whose German translations are in the order of its keys, and
    an enum whose translations are in neither that order nor its reverse. *)
Definition colors : config.Enum :=
  {[ "BLUE" := "enum.color.blue"; "RED" := "enum.color.red" ]}.

Definition grades : config.Enum :=
  {[ "A" := "enum.grade.a"; "B" := "enum.grade.b"; "C" := "enum.grade.c" ]}.

Definition paletteMapper : config.EnumMapper :=
  {| config.enums := {[ "Color" := colors; "Grade" := grades ]} |}.

Definition paletteTranslator : config.Translator :=
  {| config.languages :=
       {[ "de" := {[ "enum.color.blue" := "blau"; "enum.color.red" := "rot";
                     "enum.grade.a" := "gut"; "enum.grade.b" := "mangelhaft";
                     "enum.grade.c" := "befriedigend" ]} ]} |}.

(** A column with a filter, as the connector asks for. *)
Definition filteredColumn (path filter : string) : config.TableSchemaColumn :=
  {| config.Title := ""; config.Path := path; config.Type_ := "string";
     config.Filter := filter; config.Order := ""; config.PathResolver := "";
     config.FrontendHints := ∅ |}.

Definition people : config.ResolvedTableSchema :=
  sample.resolvedOf "person" [filteredColumn "person_name" "StringFilter"].

(** What the schemas of the extension scenario resolve to. *)
Definition companySchemasResolved : gmap string config.ResolvedTableSchema :=
  {[ "companies" := sample.companiesResolved;
     "subfolder/abstract_entity" :=
       {| config.originalSchema := sample.abstractEntity;
          config.columns := config.Columns sample.abstractEntity;
          config.columnsMap := config.columnsMapOf (config.Columns sample.abstractEntity) |} ]}.

Definition companyMapper : config.SchemaMapper :=
  {| config.schemas := sample.companySchemas;
     config.resolvedSchemas := companySchemasResolved |}.

Definition personKeys : keyresolver.CommonKeyResolver :=
  {| keyresolver.primaryKeyMap := {[ "person" := ["uuid"] ]};
     keyresolver.foreignKeyMap := ∅ |}.

End further.

(** * Properties *)

Example DescriptorToIdentifier_path :
  util.DescriptorToIdentifier "person_organizationalUnit_personKey"
  = "person_organizational_unit_person_key".
Proof. reflexivity. Qed.

Example IdentifierToDescriptor_key :
  util.IdentifierToDescriptor "person_key" = "personKey".
Proof. reflexivity. Qed.

(** ** Descriptor and identifier forms *)

Section PathGrammar.
Import strings util shape.











End PathGrammar.

(** ** Translations and enum keys *)

Section Catalogs.
Import config.

(** C10: an entry that is present but empty reads like a missing one.
    [Translate] answers with the placeholder and [ErrUnknownTranslation],
    exactly as it does once the key is deleted, and [TranslationKey]
    answers with [ErrUnknownEnumKey]. *)
Theorem empty_entry_reads_as_missing (catalog : LanguageCatalog) (enum : Enum)
    (key : string) :
  (catalog !! key = Some "" →
     LanguageCatalog_Translate catalog key = ("??" ++ key ++ "??", Some ErrUnknownTranslation)
     ∧ LanguageCatalog_Translate catalog key
       = LanguageCatalog_Translate (delete key catalog) key)
  ∧ (enum !! key = Some "" →
       Enum_TranslationKey enum key = ("", Some ErrUnknownEnumKey)
       ∧ Enum_TranslationKey enum key = Enum_TranslationKey (delete key enum) key).
Proof.
  unfold LanguageCatalog_Translate, Enum_TranslationKey.
  split; intros ->; rewrite lookup_delete_eq; simpl; by split.
Qed.

Lemma empty_entry_reads_as_missing_witness :
  LanguageCatalog_Translate {[ "enum.country.de" := "" ]} "enum.country.de"
  = ("??enum.country.de??", Some ErrUnknownTranslation)
  ∧ Enum_TranslationKey {[ "DE" := "" ]} "DE" = ("", Some ErrUnknownEnumKey).
Proof.
  split.
  - apply (proj1 (empty_entry_reads_as_missing
                    {[ "enum.country.de" := "" ]} ∅ "enum.country.de")).
    reflexivity.
  - apply (proj2 (empty_entry_reads_as_missing ∅ {[ "DE" := "" ]} "DE")).
    reflexivity.
Defined.

End Catalogs.

(** ** Filter values and operators *)

Section Filters.
Import strings filter.

Lemma eqb_string_true (a b : string) : String.eqb a b = true ↔ a = b.
Proof. apply String.eqb_eq. Qed.

Lemma eqb_string_false (a b : string) : String.eqb a b = false ↔ a ≠ b.
Proof. apply String.eqb_neq. Qed.

Lemma Boolean_ParseValue_string (s : string) :
  Boolean_ParseValue (VString s)
  = Returned (if decide (s = "1" ∨ ToLower s = "true") then "true" else "false").
Proof.
  simpl.
  destruct (String.eqb s "1") eqn:H1; destruct (String.eqb (ToLower s) "true") eqn:H2;
    simpl;
    first [apply eqb_string_true in H1 | apply eqb_string_false in H1];
    first [apply eqb_string_true in H2 | apply eqb_string_false in H2];
    first [ rewrite decide_True by auto; reflexivity
          | rewrite decide_False by (intros [?|?]; contradiction); reflexivity ].
Qed.

Ltac other_value :=
  split; [|split]; split; try done;
  try (intros [?|(? & ? & _)]; done).

(** C9, as amended: on a bool or a string [Boolean.ParseValue] returns
    ["true"] for [true], for ["1"] and for a string that is ["true"] up
    to case, and ["false"] for every other bool or string; on a value
    that is neither a bool nor a string it panics. *)
Theorem Boolean_ParseValue_cases (value : Value) :
  (Boolean_ParseValue value = Returned "true" ↔
     value = VBool true
     ∨ ∃ s, value = VString s ∧ (s = "1" ∨ ToLower s = "true"))
  ∧ (Boolean_ParseValue value = Returned "false" ↔
       value = VBool false
       ∨ ∃ s, value = VString s ∧ s ≠ "1" ∧ ToLower s ≠ "true")
  ∧ (Boolean_ParseValue value = Panicked cannotParse ↔
       (∀ b, value ≠ VBool b) ∧ (∀ s, value ≠ VString s)).
Proof.
  destruct value as [s|z|z|b|r].
  - rewrite Boolean_ParseValue_string.
    destruct (decide (s = "1" ∨ ToLower s = "true")) as [Htrue|Htrue].
    + split; [|split]; split; try done.
      * intros _. right. by exists s.
      * intros [?|(s' & [= <-] & ? & ?)]; [done|]. by destruct Htrue.
      * intros [_ H]. by destruct (H s).
    + split; [|split]; split; try done.
      * intros [?|(s' & [= <-] & ?)]; [done|]. by destruct Htrue.
      * intros _. right. exists s. split; [done|]. split; intros ?; apply Htrue; auto.
      * intros [_ H]. by destruct (H s).
  - simpl. other_value.
  - simpl. other_value.
  - destruct b; simpl; (split; [|split]); split; try done;
      try (by left); try (intros [?|(? & ? & _)]; done);
      intros [H _]; by edestruct H.
  - simpl. other_value.
Qed.

(** C9 as stated fails: an [int64] is neither a bool nor a string, and
    the call panics instead of returning ["false"]. *)
Lemma Boolean_ParseValue_not_total :
  ¬ (∀ value : Value,
       Boolean_ParseValue value = Returned "true"
       ∨ Boolean_ParseValue value = Returned "false").
Proof. intros H. by destruct (H (VInt64 1)). Qed.

(** C1: what the operator mappings return.  The default mapping gives
    the SQL operators for [EQUALS] and [NOT_EQUALS]; for the four order
    comparisons it gives the names of their filter modes, which then
    stand in the predicate.  The regular-expression strategy replaces
    the default only for [EQUALS] and [NOT_EQUALS] on a string that
    contains [.*]. *)
Theorem Common_Operator_table (value : Value) :
  Common_Operator value tableaux.FilterEquals = ("=", None)
  ∧ Common_Operator value tableaux.FilterNotEquals = ("!=", None)
  ∧ Common_Operator value tableaux.FilterGreater = ("GREATER", None)
  ∧ Common_Operator value tableaux.FilterGreaterEquals = ("GREATER_EQUALS", None)
  ∧ Common_Operator value tableaux.FilterLesser = ("LESSER", None)
  ∧ Common_Operator value tableaux.FilterLesserEquals = ("LESSER_EQUALS", None)
  ∧ sqlsource.Common_FilterStringFromValue "person.age"
      (Common_Operator value tableaux.FilterGreater).1 "18"
    = "person.age GREATER 18"
  ∧ (∀ s, Contains s ".*" = true →
          RegexString_Operator (VString s) tableaux.FilterEquals = ("LIKE", None)
          ∧ RegexString_Operator (VString s) tableaux.FilterNotEquals = ("NOT LIKE", None))
  ∧ (∀ s filterMode,
       Contains s ".*" = false
       ∨ (filterMode ≠ tableaux.FilterEquals ∧ filterMode ≠ tableaux.FilterNotEquals) →
       RegexString_Operator (VString s) filterMode
       = Common_Operator (VString s) filterMode).
Proof.
  do 7 (split; [reflexivity|]). split.
  - intros s Hcontains. simpl. by rewrite Hcontains.
  - intros s filterMode Hdefault. simpl.
    destruct (Contains s ".*"); [|done].
    destruct Hdefault as [?|[Hne1 Hne2]]; [done|].
    rewrite decide_False by done. by rewrite decide_False by done.
Qed.

End Filters.

(** ** Deferred loading *)

Section DeferredLoading.
Import strings shape sqlsource sample.

Lemma crossesJoinOrCounts_unfold schema columnOrder :
  crossesJoinOrCounts schema columnOrder = true ↔
  (2 < length (Split (datasource.Order_path columnOrder) underscore))%nat
  ∨ ∃ resolvedColumn,
      config.columnsMap schema !! datasource.Order_path columnOrder = Some resolvedColumn
      ∧ config.PathResolver resolvedColumn = "SizePathResolver".
Proof.
  unfold crossesJoinOrCounts, config.Column.
  rewrite orb_true_iff, Nat.ltb_lt.
  destruct (config.columnsMap schema !! _) as [column|]; simpl.
  - rewrite bool_decide_eq_true. split.
    + intros [?|?]; [by left | right; by exists column].
    + intros [?|(column' & [= <-] & ?)]; [by left | by right].
  - split.
    + intros [?|?]; [by left | done].
    + intros [?|(column' & ? & _)]; [by left | done].
Qed.

(** C6, as amended: when [adviseDeferredLoading] returns true, some
    order path crosses a join or is a size column; and when every order
    path is a column of the schema, one such order path is enough for it
    to return true, whatever the other order entries are. *)
Theorem adviseDeferredLoading_iff (columns : list config.TableSchemaColumn)
    (orders : list datasource.Order) (schema : config.ResolvedTableSchema) :
  (adviseDeferredLoading columns orders schema = true →
     ∃ columnOrder, columnOrder ∈ orders ∧ crossesJoinOrCounts schema columnOrder = true)
  ∧ ((∀ columnOrder, columnOrder ∈ orders → knownColumn schema columnOrder) →
     (∃ columnOrder, columnOrder ∈ orders ∧ crossesJoinOrCounts schema columnOrder = true) →
     adviseDeferredLoading columns orders schema = true).
Proof.
  split.
  - induction orders as [|o rest IH]; simpl; [done|].
    destruct (2 <? _)%nat eqn:Hlong.
    { intros _. exists o. split; [left|].
      apply crossesJoinOrCounts_unfold. left. by apply Nat.ltb_lt. }
    unfold config.Column.
    destruct (config.columnsMap schema !! _) as [column|] eqn:Hcol; [|done].
    case_decide as Hsize.
    { intros _. exists o. split; [left|].
      apply crossesJoinOrCounts_unfold. right. eauto. }
    intros (o' & Hin & Ho')%IH. exists o'. split; [by right | done].
  - induction orders as [|o rest IH]; intros Hknown (o' & Hin & Ho').
    { by apply elem_of_nil in Hin. }
    simpl. destruct (2 <? _)%nat eqn:Hlong; [done|].
    destruct (Hknown o ltac:(left)) as [column Hcol].
    unfold config.Column. rewrite Hcol.
    case_decide as Hsize; [done|].
    apply IH.
    + intros o'' ?. apply Hknown. by right.
    + apply elem_of_cons in Hin as [->|Hin]; [|eauto].
      apply crossesJoinOrCounts_unfold in Ho' as [Hlt|(column' & Hcol' & Hsize')].
      * apply Nat.ltb_ge in Hlong. lia.
      * congruence.
Qed.

Lemma adviseDeferredLoading_iff_witness :
  adviseDeferredLoading []
    [orderOn "person_name"; orderOn "person_addresses"]
    (resolvedOf "person"
       [columnOn "person_name" ""; columnOn "person_addresses" "SizePathResolver"])
  = true.
Proof.
  apply (proj2 (adviseDeferredLoading_iff []
                  [orderOn "person_name"; orderOn "person_addresses"]
                  (resolvedOf "person"
                     [columnOn "person_name" "";
                      columnOn "person_addresses" "SizePathResolver"]))).
  - intros columnOrder Hin.
    apply elem_of_cons in Hin as [->|Hin]; [by eexists|].
    apply elem_of_cons in Hin as [->|Hin]; [by eexists|].
    by apply elem_of_nil in Hin.
  - exists (orderOn "person_addresses"). split; [|reflexivity].
    right. left.
Defined.

(** C6 as stated fails: an order path that the schema does not know and
    that has no more than two segments ends the loop with false, also
    when a later order path crosses a join. *)
Lemma adviseDeferredLoading_stops_at_unknown_column :
  ¬ (∀ columns orders schema,
       adviseDeferredLoading columns orders schema = true ↔
       ∃ columnOrder, columnOrder ∈ orders ∧ crossesJoinOrCounts schema columnOrder = true).
Proof.
  intros H.
  destruct (H [] [orderOn "person_nickname"; orderOn "person_organization_name"]
              (resolvedOf "person" [columnOn "person_name" ""])) as [_ Hback].
  assert (Hfalse :
    adviseDeferredLoading [] [orderOn "person_nickname"; orderOn "person_organization_name"]
      (resolvedOf "person" [columnOn "person_name" ""]) = false) by reflexivity.
  rewrite Hback in Hfalse; [done|].
  exists (orderOn "person_organization_name"). split; [|reflexivity].
  right. left.
Qed.

End DeferredLoading.

(** ** Ordering by fixed sort keys *)

Section SortKeys.
Import sqlsource.

Lemma stringSlicesEqual_eq (a b : list string) :
  stringSlicesEqual a b = true ↔ a = b.
Proof.
  revert b. induction a as [|x a IH]; intros [|y b]; simpl; try done.
  rewrite andb_true_iff, String.eqb_eq, IH. split.
  - by intros [-> ->].
  - by intros [= -> ->].
Qed.

(** C5: what [OrderColumn] does with sort keys that all turn into
    strings and are not in ascending order: it panics at the type
    assertion on the value of [sort.Reverse], before the reversed order
    is looked at.  This includes the keys that are in descending order. *)
Theorem OrderColumn_unsorted_keys_panic (queryBuilder : QueryBuilder) (path : string)
    (column : config.TableSchemaColumn) (sorter : order.Sorter)
    (order : datasource.Order) (locale : string) (sanitizedKeys : list string) :
  sanitizeKeys (datasource.sortKeys order) = Some sanitizedKeys →
  sanitizedKeys ≠ sortStrings sanitizedKeys →
  OrderColumn queryBuilder path column sorter order locale
  = Panicked "interface conversion: sort.Interface is *sort.reverse, not sort.StringSlice".
Proof.
  intros Hkeys Hunsorted. unfold OrderColumn.
  destruct (datasource.sortKeys order) as [|key keys] eqn:Hlist.
  { simpl in Hkeys. injection Hkeys as <-. by destruct Hunsorted. }
  change (0 <? length (key :: keys))%nat with true. cbv iota. rewrite Hkeys.
  destruct (stringSlicesEqual sanitizedKeys (sortStrings sanitizedKeys)) eqn:Hsame.
  - apply stringSlicesEqual_eq in Hsame. by destruct Hunsorted.
  - reflexivity.
Qed.

Lemma OrderColumn_unsorted_keys_panic_witness :
  sortStrings ["b"; "a"] = ["a"; "b"]
  ∧ rev (sortStrings ["b"; "a"]) = ["b"; "a"]
  ∧ OrderColumn CommonQueryBuilder "person.name" config.zeroColumn order.Direct
      {| datasource.Order_path := "person_name";
         datasource.direction := tableaux.OrderAsc;
         datasource.sortKeys := [VString "b"; VString "a"] |} "de"
    = Panicked "interface conversion: sort.Interface is *sort.reverse, not sort.StringSlice".
Proof.
  split; [reflexivity|]. split; [reflexivity|].
  apply (OrderColumn_unsorted_keys_panic CommonQueryBuilder "person.name"
           config.zeroColumn order.Direct _ "de" ["b"; "a"]).
  - reflexivity.
  - discriminate.
Defined.

End SortKeys.

(** ** Filter groups *)

Section FilterGroups.
Import strings sqlsource.

Lemma Join_singleton (piece sep : string) : Join [piece] sep = piece.
Proof. reflexivity. Qed.

(** Filters that all get the operator [=] fill one bucket, in order. *)
Lemma bucketFilters_equal (filtery : filter.Filter) (filters : list datasource.Filter)
    (filterModeMap : gmap filter.Operator (list Value)) :
  (∀ f, f ∈ filters →
        filter.Operator_ filtery (datasource.value f) (datasource.filterMode f)
        = (filter.OperatorEqual, None)) →
  filters ≠ [] →
  bucketFilters filtery filters filterModeMap
  = inr (<[filter.OperatorEqual :=
             (default [] (filterModeMap !! filter.OperatorEqual)
                ++ (datasource.value <$> filters))%list]> filterModeMap).
Proof.
  revert filterModeMap.
  induction filters as [|f rest IH]; intros m Hop Hne; [done|].
  simpl. rewrite (Hop f) by left.
  destruct rest as [|f' rest'].
  - reflexivity.
  - rewrite IH; [|intros; apply Hop; by right|done].
    rewrite lookup_insert_eq. simpl. rewrite insert_insert_eq.
    by rewrite <- app_assoc.
Qed.

(** C8, as amended: a filter group whose filters all have mode [EQUALS],
    whose strategy gives each of its values the operator [=] and parses
    them, and which has at least two values, compiles to
    [path IN (v1,...,vn)] with the parsed values in filter order.  With
    the Numeric strategy, the column [company_companyKey] and the values
    1, 2, 3 this is [company.company_key IN (1,2,3)]. *)
Theorem FilterColumn_in_collapse (path : string) (filtery : filter.Filter)
    (filterGroup : datasource.FilterGroup) (parsedValues : list string) :
  (∀ f, f ∈ datasource.filters filterGroup →
        datasource.filterMode f = tableaux.FilterEquals) →
  (∀ f, f ∈ datasource.filters filterGroup →
        filter.Operator_ filtery (datasource.value f) tableaux.FilterEquals
        = (filter.OperatorEqual, None)) →
  parseValues filtery (datasource.value <$> datasource.filters filterGroup)
  = Returned parsedValues →
  (2 ≤ length (datasource.filters filterGroup))%nat →
  FilterColumn CommonQueryBuilder path filtery [filterGroup]
  = Returned (path ++ " IN (" ++ Join parsedValues "," ++ ")", None)
  ∧ FilterColumn CommonQueryBuilder
      (path.SimpleResolver_ResolvePathName (sample.columnOn "company_companyKey" ""))
      filter.Numeric
      [datasource.NewSimpleFilterGroup "company_companyKey" tableaux.FilterEquals
         [VInt64 1; VInt64 2; VInt64 3]]
    = Returned ("company.company_key IN (1,2,3)", None).
Proof.
  intros Hmode Hop Hparse Hlen. split; [|vm_compute; reflexivity].
  unfold FilterColumn. simpl.
  rewrite bucketFilters_equal.
  - rewrite lookup_empty. simpl. rewrite insert_empty, map_to_list_singleton. simpl.
    unfold Common_FilterStringFromValues. rewrite Hparse. simpl.
    destruct (decide (length _ = 1%nat)) as [Hone|_]; [|reflexivity].
    rewrite length_fmap in Hone. lia.
  - intros f Hin. rewrite (Hmode f Hin). by apply Hop.
  - intros Hnil. rewrite Hnil in Hlen. simpl in Hlen. lia.
Qed.

Lemma FilterColumn_in_collapse_witness :
  FilterColumn CommonQueryBuilder "person.name" filter.PlainString
    [datasource.NewSimpleFilterGroup "person_name" tableaux.FilterEquals
       [VString "Ann"; VString "Bob"]]
  = Returned ("person.name IN ('Ann','Bob')", None).
Proof.
  apply (FilterColumn_in_collapse "person.name" filter.PlainString
           (datasource.NewSimpleFilterGroup "person_name" tableaux.FilterEquals
              [VString "Ann"; VString "Bob"]) ["'Ann'"; "'Bob'"]).
  - intros f Hin.
    apply elem_of_cons in Hin as [->|Hin]; [reflexivity|].
    apply elem_of_cons in Hin as [->|Hin]; [reflexivity|].
    by apply elem_of_nil in Hin.
  - intros f Hin. reflexivity.
  - reflexivity.
  - simpl. lia.
Defined.

(** C8 as stated fails for the regular-expression strategy: values that
    contain [.*] get the operator [LIKE], and their comparisons are
    chained with [OR]. *)
Lemma FilterColumn_regex_not_collapsed :
  ¬ (∀ (path : string) (filtery : filter.Filter)
       (filterGroup : datasource.FilterGroup) (parsedValues : list string),
       (∀ f, f ∈ datasource.filters filterGroup →
             datasource.filterMode f = tableaux.FilterEquals) →
       parseValues filtery (datasource.value <$> datasource.filters filterGroup)
       = Returned parsedValues →
       (2 ≤ length (datasource.filters filterGroup))%nat →
       FilterColumn CommonQueryBuilder path filtery [filterGroup]
       = Returned (path ++ " IN (" ++ Join parsedValues "," ++ ")", None)).
Proof.
  intros H.
  assert (Hmodes :
    ∀ f, f ∈ datasource.filters
               (datasource.NewSimpleFilterGroup "person_name" tableaux.FilterEquals
                  [VString "A.*"; VString "B.*"]) →
         datasource.filterMode f = tableaux.FilterEquals).
  { intros f Hin. simpl in Hin.
    apply elem_of_cons in Hin as [->|Hin]; [reflexivity|].
    apply elem_of_cons in Hin as [->|Hin]; [reflexivity|].
    by apply elem_of_nil in Hin. }
  assert (Hcode :
    FilterColumn CommonQueryBuilder "person.name" filter.RegexString
      [datasource.NewSimpleFilterGroup "person_name" tableaux.FilterEquals
         [VString "A.*"; VString "B.*"]]
    = Returned ("person.name LIKE 'A%' OR person.name LIKE 'B%'", None))
    by (vm_compute; reflexivity).
  specialize (H "person.name" filter.RegexString
                (datasource.NewSimpleFilterGroup "person_name" tableaux.FilterEquals
                   [VString "A.*"; VString "B.*"])
                ["'A%'"; "'B%'"] Hmodes eq_refl).
  rewrite Hcode in H. clear Hcode Hmodes.
  assert (Hlen : (2 ≤ 2)%nat) by lia.
  specialize (H Hlen). discriminate H.
Qed.

End FilterGroups.

(** ** Sorting *)

Section Sorting.
Context {A : Type} (less : A → A → bool).

Lemma insertSorted_Permutation (x : A) (l : list A) :
  insertSorted less x l ≡ₚ x :: l.
Proof.
  induction l as [|y l IH]; simpl; [done|].
  destruct (less y x); [|done].
  rewrite IH. apply perm_swap.
Qed.

Lemma sortSlice_Permutation (l : list A) : sortSlice less l ≡ₚ l.
Proof.
  induction l as [|x l IH]; simpl; [done|].
  rewrite insertSorted_Permutation. by rewrite IH.
Qed.

Lemma sortSlice_length (l : list A) : length (sortSlice less l) = length l.
Proof. by rewrite sortSlice_Permutation. Qed.

Section Ordered.
Hypothesis less_asym : ∀ a b, less a b = true → less b a = false.
Hypothesis notAfter_trans :
  ∀ a b c, notAfter less a b → notAfter less b c → notAfter less a c.

Lemma insertSorted_sorted (x : A) (l : list A) :
  StronglySorted (notAfter less) l → StronglySorted (notAfter less) (insertSorted less x l).
Proof.
  induction 1 as [|y l Hsorted IH Hall]; simpl.
  - repeat constructor.
  - destruct (less y x) eqn:Hyx.
    + constructor; [done|].
      rewrite insertSorted_Permutation. constructor; [|done].
      by apply less_asym.
    + constructor; [by constructor|].
      constructor; [done|].
      eapply Forall_impl; [exact Hall|].
      intros z Hz. by apply (notAfter_trans x y z).
Qed.

Lemma sortSlice_sorted (l : list A) :
  StronglySorted (notAfter less) (sortSlice less l).
Proof.
  induction l as [|x l IH]; simpl; [constructor|].
  by apply insertSorted_sorted.
Qed.
End Ordered.

End Sorting.

Lemma StronglySorted_weaken {A} (R1 R2 : A → A → Prop) (l : list A) :
  (∀ a b, a ∈ l → b ∈ l → R1 a b → R2 a b) →
  StronglySorted R1 l → StronglySorted R2 l.
Proof.
  intros Himpl Hsorted. induction Hsorted as [|x l Hsorted IH Hall]; [constructor|].
  constructor.
  - apply IH. intros a b ? ?. apply Himpl; by right.
  - apply Forall_forall. intros y Hy. apply Himpl; [by left | by right |].
    by apply (proj1 (Forall_forall _ _) Hall).
Qed.

(** Two callbacks that agree on the distinct elements of a slice sort it
    the same way. *)
Lemma insertSorted_ext {A} (less1 less2 : A → A → bool) (x : A) (l : list A) :
  (∀ y, y ∈ l → less1 y x = less2 y x) →
  insertSorted less1 x l = insertSorted less2 x l.
Proof.
  induction l as [|y l IH]; intros Hagree; simpl; [done|].
  rewrite (Hagree y) by left.
  destruct (less2 y x); [|done].
  f_equal. apply IH. intros z ?. apply Hagree. by right.
Qed.

Lemma sortSlice_ext {A} (less1 less2 : A → A → bool) (l : list A) :
  NoDup l →
  (∀ a b, a ∈ l → b ∈ l → a ≠ b → less1 a b = less2 a b) →
  sortSlice less1 l = sortSlice less2 l.
Proof.
  induction 1 as [|x l Hx Hnodup IH]; intros Hagree; simpl; [done|].
  rewrite IH.
  - apply insertSorted_ext. intros y Hy.
    rewrite sortSlice_Permutation in Hy.
    apply Hagree; [by right | by left | by intros ->].
  - intros a b ? ? ?. apply Hagree; by try right.
Qed.

(** *** Slices whose elements the callback orders strictly and totally *)

Section OrderedOn.
Context {A : Type} `{EqDecision A} (less : A → A → bool) (dom : list A).

Hypothesis less_total :
  ∀ a b, a ∈ dom → b ∈ dom → a ≠ b → less a b = negb (less b a).
Hypothesis less_trans :
  ∀ a b c, a ∈ dom → b ∈ dom → c ∈ dom →
           less a b = true → less b c = true → less a c = true.

Lemma insertSorted_sorted_on (x : A) (l : list A) :
  x ∈ dom → l ⊆ dom → x ∉ l → NoDup l →
  StronglySorted (notAfter less) l →
  StronglySorted (notAfter less) (insertSorted less x l).
Proof.
  intros Hx Hsub Hfresh Hnodup Hsorted.
  induction Hsorted as [|y l Hsorted IH Hall]; simpl.
  - repeat constructor.
  - apply NoDup_cons in Hnodup as [Hy Hnodup].
    assert (Hydom : y ∈ dom) by (apply Hsub; left).
    assert (Hldom : l ⊆ dom) by (intros z ?; apply Hsub; by right).
    assert (Hxy : x ≠ y) by (intros ->; apply Hfresh; left).
    assert (Hxl : x ∉ l) by (intros ?; apply Hfresh; by right).
    destruct (less y x) eqn:Hyx.
    + constructor; [by apply IH|].
      rewrite insertSorted_Permutation. constructor; [|done].
      unfold notAfter. rewrite (less_total x y) by done. by rewrite Hyx.
    + constructor; [by constructor|].
      constructor; [done|].
      apply Forall_forall. intros z Hz.
      assert (Hyz : y ≠ z) by (by intros ->).
      assert (Hxz : x ≠ z) by (by intros ->).
      assert (Hlt : less x y = true) by (rewrite (less_total x y) by done; by rewrite Hyx).
      assert (Hlt' : less y z = true).
      { rewrite (less_total y z) by auto.
        by rewrite (proj1 (Forall_forall _ _) Hall z Hz). }
      unfold notAfter. rewrite (less_total z x) by auto.
      by rewrite (less_trans x y z) by auto.
Qed.

Lemma sortSlice_sorted_on (l : list A) :
  NoDup l → l ⊆ dom → StronglySorted (notAfter less) (sortSlice less l).
Proof.
  induction 1 as [|x l Hx Hnodup IH]; intros Hsub; simpl; [constructor|].
  apply insertSorted_sorted_on.
  - apply Hsub. left.
  - intros z. rewrite sortSlice_Permutation. intros ?. apply Hsub. by right.
  - by rewrite sortSlice_Permutation.
  - by rewrite sortSlice_Permutation.
  - apply IH. intros z ?. apply Hsub. by right.
Qed.

End OrderedOn.

(** When the callback orders the distinct elements of a slice strictly
    and totally, every arrangement of the slice in which no element is
    less than one before it is the list of [sortSlice]: the result does
    not depend on the sorting algorithm or on the order the slice was
    filled in. *)
Lemma sortSlice_unique {A : Type} `{EqDecision A} (less : A → A → bool)
    (l sorted : list A) :
  NoDup l →
  (∀ a b, a ∈ l → b ∈ l → a ≠ b → less a b = negb (less b a)) →
  (∀ a b c, a ∈ l → b ∈ l → c ∈ l →
            less a b = true → less b c = true → less a c = true) →
  sorted ≡ₚ l →
  StronglySorted (notAfter less) sorted →
  sorted = sortSlice less l.
Proof.
  intros Hnodup Htotal Htrans Hperm Hsorted.
  apply (StronglySorted_unique_strong (notAfter less)).
  - intros x1 x2 H1 H2 H12 H21. unfold notAfter in H12, H21.
    rewrite Hperm in H1. rewrite sortSlice_Permutation in H2.
    destruct (decide (x1 = x2)) as [|Hne]; [done|].
    rewrite (Htotal x1 x2 H1 H2 Hne), H12 in H21. done.
  - done.
  - by apply (sortSlice_sorted_on less l Htotal Htrans).
  - by rewrite sortSlice_Permutation.
Qed.

(** *** The byte-wise order on strings *)

Lemma ltb_false_le (a b : string) : String.ltb b a = false ↔ String.le a b.
Proof.
  unfold String.le, String.ltb, String.leb. rewrite (String.compare_antisym b a).
  destruct (String.compare a b); simpl; intuition (try discriminate).
Qed.

Lemma ltb_true_le (a b : string) : String.ltb a b = true ↔ String.le a b ∧ a ≠ b.
Proof.
  unfold String.le, String.ltb, String.leb.
  destruct (String.compare a b) eqn:Hcmp; simpl.
  - apply String.compare_eq_iff in Hcmp. split; [discriminate | by intros [_ ?]].
  - split; [|done]. intros _. split; [exact I|]. intros ->.
    pose proof (String.compare_antisym b b) as Hanti.
    rewrite Hcmp in Hanti. discriminate.
  - split; [discriminate | by intros [[] _]].
Qed.

Lemma ltb_asym (a b : string) : String.ltb a b = true → String.ltb b a = false.
Proof. rewrite ltb_true_le, ltb_false_le. by intros [? _]. Qed.

Lemma ltb_notAfter_trans (a b c : string) :
  notAfter String.ltb a b → notAfter String.ltb b c → notAfter String.ltb a c.
Proof. unfold notAfter. rewrite !ltb_false_le. by etrans. Qed.

Lemma ltb_total (a b : string) : a ≠ b → String.ltb a b = true ∨ String.ltb b a = true.
Proof.
  intros Hne. destruct (String.ltb a b) eqn:Hab; [by left | right].
  apply ltb_true_le. split; [by apply ltb_false_le | done].
Qed.

Lemma ltb_negb (a b : string) : a ≠ b → String.ltb a b = negb (String.ltb b a).
Proof.
  intros Hne. destruct (ltb_total a b Hne) as [Hlt|Hlt].
  - by rewrite Hlt, (ltb_asym _ _ Hlt).
  - by rewrite Hlt, (ltb_asym _ _ Hlt).
Qed.

Lemma ltb_trans (a b c : string) :
  String.ltb a b = true → String.ltb b c = true → String.ltb a c = true.
Proof.
  rewrite !ltb_true_le. intros [Hab Hne] [Hbc _]. split; [by etrans|].
  intros ->. apply Hne. by apply (anti_symm String.le).
Qed.

Lemma sortStrings_Permutation (l : list string) : sortStrings l ≡ₚ l.
Proof. apply sortSlice_Permutation. Qed.

Lemma sortStrings_sorted (l : list string) : StronglySorted String.le (sortStrings l).
Proof.
  eapply StronglySorted_weaken;
    [|apply (sortSlice_sorted String.ltb ltb_asym ltb_notAfter_trans)].
  intros a b _ _. apply ltb_false_le.
Qed.

(** Any way of putting the strings in ascending order gives the list of
    [sortStrings]. *)
Lemma sortStrings_unique (l sorted : list string) :
  sorted ≡ₚ l → StronglySorted String.le sorted → sorted = sortStrings l.
Proof.
  intros Hperm Hsorted.
  apply (StronglySorted_unique String.le); [done | apply sortStrings_sorted |].
  by rewrite sortStrings_Permutation.
Qed.

Lemma sorted_NoDup_strict (l : list string) :
  StronglySorted String.le l → NoDup l →
  StronglySorted (λ a b, String.ltb a b = true) l.
Proof.
  induction 1 as [|x l Hsorted IH Hall]; intros Hnodup; [constructor|].
  apply NoDup_cons in Hnodup as [Hx Hnodup].
  constructor; [by apply IH|].
  apply Forall_forall. intros y Hy. apply ltb_true_le. split.
  - by apply (proj1 (Forall_forall _ _) Hall).
  - by intros ->.
Qed.

(** ** Join planning *)

Section JoinPlanning.
Import strings sqlsource.

Lemma elem_of_joinPathsOf (joinPath columnPath : string) :
  joinPath ∈ joinPathsOf columnPath ↔
  ∃ i, (2 ≤ i < length (Split columnPath underscore))%nat
       ∧ joinPath = Join (take i (Split columnPath underscore)) "_".
Proof.
  unfold joinPathsOf. destruct (2 <? _)%nat eqn:Hlong.
  - apply Nat.ltb_lt in Hlong. rewrite list_elem_of_fmap. split.
    + intros (i & -> & Hi%elem_of_seq). exists i. split; [lia | done].
    + intros (i & Hi & ->). exists i. split; [done|]. apply elem_of_seq. lia.
  - apply Nat.ltb_ge in Hlong. split.
    + by intros ?%elem_of_nil.
    + intros (i & Hi & _). lia.
Qed.

Lemma elem_of_mergedParticipatingPaths columns orders filters (columnPath : string) :
  columnPath ∈ mergedParticipatingPaths columns orders filters ↔
  columnPath ∈ (config.Path <$> columns)
  ∨ columnPath ∈ (datasource.Order_path <$> orders)
  ∨ columnPath ∈ (datasource.path <$> filters).
Proof.
  unfold mergedParticipatingPaths.
  rewrite !elem_of_union, !elem_of_list_to_set. tauto.
Qed.

(** C4: the join paths of a request are exactly the prefixes of two up
    to all but one segments of its participating paths (so a path of
    one or two segments asks for none), each listed once, in ascending
    byte-wise order. *)
Theorem calculatePathsForJoins_spec (columns : list config.TableSchemaColumn)
    (orders : list datasource.Order) (filters : list datasource.FilterGroup) :
  (∀ joinPath : string,
     joinPath ∈ calculatePathsForJoins columns orders filters ↔
     ∃ columnPath i,
       (columnPath ∈ (config.Path <$> columns)
        ∨ columnPath ∈ (datasource.Order_path <$> orders)
        ∨ columnPath ∈ (datasource.path <$> filters))
       ∧ (2 ≤ i < length (Split columnPath underscore))%nat
       ∧ joinPath = Join (take i (Split columnPath underscore)) "_")
  ∧ NoDup (calculatePathsForJoins columns orders filters)
  ∧ StronglySorted (λ a b, String.ltb a b = true)
      (calculatePathsForJoins columns orders filters).
Proof.
  unfold calculatePathsForJoins.
  set (participating := mergedParticipatingPaths columns orders filters).
  destruct (decide (size participating = 0%nat)) as [Hempty|_].
  - apply size_empty_inv in Hempty. apply leibniz_equiv in Hempty.
    split; [|split; constructor].
    intros joinPath. split; [by intros ?%elem_of_nil|].
    intros (columnPath & i & Hin & _).
    apply elem_of_mergedParticipatingPaths in Hin.
    fold participating in Hin. rewrite Hempty in Hin. by apply not_elem_of_empty in Hin.
  - assert (Hnodup : NoDup (sortStrings (elements
              (list_to_set (elements participating ≫= joinPathsOf) : gset string)))).
    { rewrite sortStrings_Permutation. apply NoDup_elements. }
    split; [|split; [done|]].
    + intros joinPath.
      rewrite sortStrings_Permutation, elem_of_elements, elem_of_list_to_set.
      rewrite list_elem_of_bind. split.
      * intros (columnPath & (i & Hi & ->)%elem_of_joinPathsOf & Hin).
        exists columnPath, i. split; [|done].
        apply elem_of_mergedParticipatingPaths. by apply elem_of_elements.
      * intros (columnPath & i & Hin & Hi & ->). exists columnPath. split.
        -- apply elem_of_joinPathsOf. by exists i.
        -- apply elem_of_elements. by apply elem_of_mergedParticipatingPaths.
    + apply sorted_NoDup_strict; [apply sortStrings_sorted | done].
Qed.

(** The request of the join-planning scenario. *)
Example calculatePathsForJoins_organization :
  calculatePathsForJoins
    [sample.columnOn "organization_assignedPerson_supervisor_name" "";
     sample.columnOn "organization_name" ""] [] []
  = ["organization_assignedPerson"; "organization_assignedPerson_supervisor"].
Proof. vm_compute. reflexivity. Qed.

End JoinPlanning.

(** ** Schema resolution *)

Section Exclusions.
Import strings config.

Lemma length_drop (n : nat) (s : string) :
  String.length (drop n s) = (String.length s - n)%nat.
Proof.
  revert s. induction n as [|n IH]; intros [|c s]; simpl; done.
Qed.

(** [TrimPrefix] changes a string exactly when the prefix is there and
    is not empty. *)
Lemma TrimPrefix_changes (key exclusion : string) :
  TrimPrefix key exclusion ≠ key ↔ HasPrefix key exclusion = true ∧ exclusion ≠ "".
Proof.
  unfold TrimPrefix. destruct (HasPrefix key exclusion) eqn:Hprefix.
  - destruct exclusion as [|c exclusion']; [by split; [|intros [_ ?]]|].
    split; [done|]. intros _ Hsame.
    apply (f_equal String.length) in Hsame. rewrite length_drop in Hsame.
    destruct key as [|k key']; [done|]. simpl in Hsame. lia.
  - split; [done | by intros [? _]].
Qed.

(** The columns that [resolveColumns] returns are columns that no
    exclusion trims, or zero columns. *)
Lemma resolveColumns_kept (fuel : nat) (schema : TableSchema)
    (allSchemas : gmap string TableSchema) (resolved : list TableSchemaColumn)
    (column : TableSchemaColumn) :
  resolveColumns fuel schema allSchemas = Some (inr resolved) →
  column ∈ resolved →
  column = zeroColumn
  ∨ ∀ exclusion, exclusion ∈ Exclusions schema →
                 TrimPrefix (Path column) exclusion = Path column.
Proof.
  unfold resolveColumns.
  destruct (resolveColumnsWithPrefix fuel schema allSchemas "") as [[err|newColumns]|];
    [done| |done].
  intros [= <-] Hin. apply elem_of_app in Hin as [Hin|Hin].
  - right. apply list_elem_of_filter in Hin as [Hkeep Hin].
    intros exclusion Hexclusion.
    destruct (decide (TrimPrefix (Path column) exclusion = Path column)) as [|Htrim];
      [done|].
    destruct Hkeep. unfold resolveDeletableColumns.
    apply elem_of_list_to_set, list_elem_of_fmap. exists column. split; [done|].
    apply list_elem_of_filter. split; [|done].
    apply existsb_exists. exists exclusion. split.
    + by apply list_elem_of_In.
    + apply negb_true_iff. by apply String.eqb_neq.
  - left. by apply elem_of_replicate in Hin as [? _].
Qed.

(** Every resolved schema comes from [resolveColumns] on its original
    schema. *)
Lemma resolveEach_columns (fuel : nat) (schemas : gmap string TableSchema)
    (entries : list (string * TableSchema))
    (resolvedSchemas result : gmap string ResolvedTableSchema) :
  resolveEach fuel schemas entries resolvedSchemas = Some (inr result) →
  (∀ table R, resolvedSchemas !! table = Some R →
              resolveColumns fuel (originalSchema R) schemas = Some (inr (columns R))) →
  ∀ table R, result !! table = Some R →
             resolveColumns fuel (originalSchema R) schemas = Some (inr (columns R)).
Proof.
  revert resolvedSchemas.
  induction entries as [|[name schema] rest IH]; intros acc Hrun Hacc; simpl in Hrun.
  - by injection Hrun as <-.
  - destruct (resolveColumns fuel schema schemas) as [[err|resolvedColumns]|] eqn:Hcols;
      [done| |done].
    apply (IH _ Hrun). intros table R Hlookup.
    destruct (decide (name = table)) as [->|Hne].
    + rewrite lookup_insert_eq in Hlookup. by injection Hlookup as <-.
    + rewrite lookup_insert_ne in Hlookup by done. by apply (Hacc table).
Qed.

(** C3, as amended: in every resolved schema of a successful resolution,
    no non-empty exclusion string of the original schema is a prefix of
    the path of a resolved column. *)
Theorem resolved_columns_not_excluded (fuel : nat) (schemas : gmap string TableSchema)
    (resolvedSchemas : gmap string ResolvedTableSchema) (table : string)
    (R : ResolvedTableSchema) (column : TableSchemaColumn)
    (exclusion : TableSchemaExclusion) :
  mapSchemasToResolvedSchemas fuel schemas = Some (inr resolvedSchemas) →
  resolvedSchemas !! table = Some R →
  column ∈ columns R →
  exclusion ∈ Exclusions (originalSchema R) →
  exclusion ≠ "" →
  HasPrefix (Path column) exclusion = false.
Proof.
  intros Hrun Hlookup Hcolumn Hexclusion Hne.
  assert (Hcols : resolveColumns fuel (originalSchema R) schemas = Some (inr (columns R))).
  { eapply (resolveEach_columns fuel schemas (map_to_list schemas) ∅);
      [exact Hrun | | exact Hlookup].
    intros ? ? Hempty. by rewrite lookup_empty in Hempty. }
  destruct (resolveColumns_kept _ _ _ _ _ Hcols Hcolumn) as [->|Hkept].
  - destruct exclusion; done.
  - destruct (HasPrefix (Path column) exclusion) eqn:Hprefix; [|done].
    destruct (proj2 (TrimPrefix_changes (Path column) exclusion)); auto.
Qed.

Lemma resolved_columns_not_excluded_witness :
  mapSchemasToResolvedSchemas 2 sample.companySchemas
  = Some (inr ({[ "companies" := sample.companiesResolved;
                  "subfolder/abstract_entity" :=
                    {| originalSchema := sample.abstractEntity;
                       columns := Columns sample.abstractEntity;
                       columnsMap := columnsMapOf (Columns sample.abstractEntity) |} ]}))
  ∧ HasPrefix "company_createDateUtc" "company_lastModificationDateUtc" = false.
Proof.
  assert (Hrun :
    mapSchemasToResolvedSchemas 2 sample.companySchemas
    = Some (inr ({[ "companies" := sample.companiesResolved;
                    "subfolder/abstract_entity" :=
                      {| originalSchema := sample.abstractEntity;
                         columns := Columns sample.abstractEntity;
                         columnsMap := columnsMapOf (Columns sample.abstractEntity) |} ]})))
    by (vm_compute; reflexivity).
  split; [exact Hrun|].
  apply (resolved_columns_not_excluded 2 sample.companySchemas _ "companies"
           sample.companiesResolved (sample.columnOn "company_createDateUtc" "")
           "company_lastModificationDateUtc" Hrun).
  - vm_compute. reflexivity.
  - simpl. do 3 right. left.
  - simpl. left.
  - discriminate.
Defined.

(** C3 as stated fails: the empty exclusion string is a prefix of every
    path and removes no column. *)
Lemma empty_exclusion_removes_nothing :
  ¬ (∀ (fuel : nat) (schemas : gmap string TableSchema)
       (resolvedSchemas : gmap string ResolvedTableSchema) (table : string)
       (R : ResolvedTableSchema) (column : TableSchemaColumn)
       (exclusion : TableSchemaExclusion),
       mapSchemasToResolvedSchemas fuel schemas = Some (inr resolvedSchemas) →
       resolvedSchemas !! table = Some R →
       column ∈ columns R →
       exclusion ∈ Exclusions (originalSchema R) →
       HasPrefix (Path column) exclusion = false).
Proof.
  intros H.
  assert (Hrun :
    mapSchemasToResolvedSchemas 1 {[ "tickets" := sample.ticket ]}
    = Some (inr {[ "tickets" := sample.ticketResolved ]}))
    by (vm_compute; reflexivity).
  assert (Hlookup :
    ({[ "tickets" := sample.ticketResolved ]} : gmap string ResolvedTableSchema)
      !! "tickets" = Some sample.ticketResolved)
    by (vm_compute; reflexivity).
  specialize (H 1%nat _ _ "tickets" sample.ticketResolved
                (sample.columnOn "ticket_title" "") "" Hrun Hlookup).
  clear Hrun Hlookup.
  assert (Hprefix : HasPrefix (Path (sample.columnOn "ticket_title" "")) "" = true)
    by reflexivity.
  rewrite H in Hprefix; [done| |]; simpl; left.
Qed.

End Exclusions.

(** ** Ordering by translated enums *)

Section EnumOrder.
Import config order shape.

Variable mapper : EnumMapper.
Variable translator : Translator.

Lemma entriesAreTheSame_eq (a b : list KeyWithTranslation) :
  entriesAreTheSame a b = true ↔ a = b.
Proof.
  revert b. induction a as [|x a IH]; intros [|y b]; simpl; try done.
  rewrite andb_true_iff, bool_decide_eq_true, IH. split.
  - by intros [-> ->].
  - by intros [= -> ->].
Qed.

Lemma elem_of_Entries (enum : Enum) (entry : KeyWithTranslation) :
  entry ∈ Entries enum ↔ enum !! EnumKey entry = Some (TranslationKey entry).
Proof.
  unfold Entries. rewrite list_elem_of_fmap. split.
  - intros ([k t] & -> & Hin). by apply elem_of_map_to_list in Hin.
  - intros Hlookup. exists (EnumKey entry, TranslationKey entry). split.
    + by destruct entry.
    + by apply elem_of_map_to_list.
Qed.

Lemma NoDup_Entries (enum : Enum) : NoDup (Entries enum).
Proof.
  unfold Entries. apply NoDup_fmap_2; [|apply NoDup_map_to_list].
  intros [k1 t1] [k2 t2] [= -> ->]. done.
Qed.

Lemma length_Entries (enum : Enum) : length (Entries enum) = size enum.
Proof. unfold Entries. by rewrite length_fmap, length_map_to_list. Qed.

Lemma Entries_distinct_keys (enum : Enum) (a b : KeyWithTranslation) :
  a ∈ Entries enum → b ∈ Entries enum → a ≠ b → EnumKey a ≠ EnumKey b.
Proof.
  rewrite !elem_of_Entries. intros Ha Hb Hne Hkey. apply Hne.
  rewrite Hkey in Ha. rewrite Ha in Hb. injection Hb as Ht.
  destruct a, b; simpl in *; congruence.
Qed.

Lemma byKey_asym a b : byKey a b = true → byKey b a = false.
Proof. apply ltb_asym. Qed.

Lemma byKey_notAfter_trans a b c :
  notAfter byKey a b → notAfter byKey b c → notAfter byKey a c.
Proof. apply ltb_notAfter_trans. Qed.

Lemma flip_byKey_asym a b : flip byKey a b = true → flip byKey b a = false.
Proof. apply ltb_asym. Qed.

Lemma flip_byKey_notAfter_trans a b c :
  notAfter (flip byKey) a b → notAfter (flip byKey) b c → notAfter (flip byKey) a c.
Proof.
  unfold notAfter, flip, byKey. rewrite !ltb_false_le. intros ? ?. by etrans.
Qed.

(** The entries in key order do not depend on how they were sorted or on
    the order in which the map was ranged over. *)
Lemma entriesSortedByKey_unique (enum : Enum) (sorted : list KeyWithTranslation) :
  sorted ≡ₚ Entries enum →
  StronglySorted (notAfter byKey) sorted →
  sorted = entriesSortedByKey enum.
Proof.
  intros Hperm Hsorted.
  apply (sortSlice_unique byKey); [apply NoDup_Entries| | |done|done].
  - intros a b Ha Hb Hne. apply ltb_negb. by apply (Entries_distinct_keys enum).
  - intros a b c _ _ _. apply ltb_trans.
Qed.

(** The same for the entries in the order of their translations, as long
    as different entries have different translations. *)
Lemma entriesSortedByTranslation_unique (enum : Enum) (locale translationSuffix : string)
    (reverse : bool) (sorted : list KeyWithTranslation) :
  (∀ a b, a ∈ Entries enum → b ∈ Entries enum → a ≠ b →
          translationOf translator locale translationSuffix a
          ≠ translationOf translator locale translationSuffix b) →
  sorted ≡ₚ Entries enum →
  StronglySorted
    (notAfter (λ a b, xorb reverse
                 (String.ltb (translationOf translator locale translationSuffix a)
                             (translationOf translator locale translationSuffix b))))
    sorted →
  sorted = entriesSortedByTranslationWithSuffix translator enum locale translationSuffix
             reverse.
Proof.
  intros Hdistinct Hperm Hsorted.
  apply (sortSlice_unique _ (Entries enum)); [apply NoDup_Entries| | |done|done].
  - intros a b Ha Hb Hne. simpl.
    rewrite (ltb_negb _ _ (Hdistinct a b Ha Hb Hne)). by destruct reverse, (String.ltb _ _).
  - intros a b c Ha Hb Hc. simpl. destruct reverse; simpl.
    + destruct (decide (a = b)) as [->|Hab]; [done|].
      destruct (decide (b = c)) as [->|Hbc]; [done|].
      destruct (decide (a = c)) as [->|Hac].
      * intros _ _. destruct (String.ltb _ _) eqn:Hrefl; [|done].
        by rewrite (ltb_asym _ _ Hrefl) in Hrefl.
      * rewrite (ltb_negb _ _ (Hdistinct a b Ha Hb Hab)),
                (ltb_negb _ _ (Hdistinct b c Hb Hc Hbc)),
                (ltb_negb _ _ (Hdistinct a c Ha Hc Hac)).
        destruct (String.ltb (translationOf translator locale translationSuffix b) _)
          eqn:H1; [|done].
        destruct (String.ltb (translationOf translator locale translationSuffix c)
                    (translationOf translator locale translationSuffix b))
          eqn:H2; [|done].
        by rewrite (ltb_trans _ _ _ H2 H1).
    + apply ltb_trans.
Qed.

(** Two or more entries with distinct keys cannot be in ascending and in
    descending key order at once. *)
Lemma ascending_not_descending (enum : Enum) :
  (2 ≤ size enum)%nat →
  sortSlice (flip byKey) (Entries enum) ≠ sortSlice byKey (Entries enum).
Proof.
  intros Hsize Hsame.
  pose proof (sortSlice_sorted byKey byKey_asym byKey_notAfter_trans (Entries enum))
    as Hup.
  pose proof (sortSlice_sorted (flip byKey) flip_byKey_asym flip_byKey_notAfter_trans
                (Entries enum)) as Hdown.
  rewrite Hsame in Hdown.
  assert (Hnodup : NoDup (sortSlice byKey (Entries enum))).
  { rewrite sortSlice_Permutation. apply NoDup_Entries. }
  assert (Hin : ∀ e, e ∈ sortSlice byKey (Entries enum) → e ∈ Entries enum).
  { intros e. by rewrite sortSlice_Permutation. }
  assert (Hlen : length (sortSlice byKey (Entries enum)) = size enum).
  { by rewrite sortSlice_length, length_Entries. }
  destruct (sortSlice byKey (Entries enum)) as [|x [|y rest]]; simpl in Hlen; try lia.
  apply StronglySorted_inv in Hup as [_ Hup]. apply Forall_inv in Hup.
  apply StronglySorted_inv in Hdown as [_ Hdown]. apply Forall_inv in Hdown.
  unfold notAfter, flip, byKey in Hup, Hdown.
  apply ltb_false_le in Hup. apply ltb_false_le in Hdown.
  apply NoDup_cons in Hnodup as [Hx _].
  apply (Entries_distinct_keys enum x y).
  - apply Hin. left.
  - apply Hin. right. left.
  - intros ->. apply Hx. left.
  - by apply (anti_symm String.le).
Qed.

(** C7, as amended: for an enum with at least two entries whose
    translations under the locale are in exactly the reverse order of
    its keys, the enum sorter (with any translation-key suffix) answers
    with the path, the reversed direction and no sort keys, and the
    order compiles to the path followed by the reversed direction. *)
Theorem enum_reverse_order_shortcut (translationSuffix path locale : string)
    (column : TableSchemaColumn) (direction : tableaux.Order) (enum : Enum) :
  enums mapper !! Type_ column = Some enum →
  (2 ≤ size enum)%nat →
  (∀ a b, a ∈ Entries enum → b ∈ Entries enum →
          String.ltb (EnumKey a) (EnumKey b) = true →
          String.ltb (translationOf translator locale translationSuffix b)
                     (translationOf translator locale translationSuffix a) = true) →
  OrderColumn (sorterWithSuffix mapper translator translationSuffix)
    path column direction locale
  = ({| Path := path; Dir := tableaux.Reverse direction; SortKeys := None |}, None)
  ∧ sqlsource.OrderColumn sqlsource.CommonQueryBuilder path column
      (sorterWithSuffix mapper translator translationSuffix)
      {| datasource.Order_path := config.Path column;
         datasource.direction := direction;
         datasource.sortKeys := [] |} locale
    = Returned (path ++ " " ++ tableaux.Reverse direction).
Proof.
  intros Henum Hsize Hreverse.
  assert (Hdown :
    entriesSortedByTranslationWithSuffix translator enum locale translationSuffix true
    = entriesSortedByKey enum).
  { apply sortSlice_ext; [apply NoDup_Entries|].
    intros a b Ha Hb Hne. simpl.
    destruct (ltb_total (EnumKey a) (EnumKey b)) as [Hlt|Hlt];
      [by apply (Entries_distinct_keys enum)| |].
    - rewrite Hlt. rewrite (ltb_asym _ _ (Hreverse a b Ha Hb Hlt)). done.
    - rewrite (ltb_asym _ _ Hlt). by rewrite (Hreverse b a Hb Ha Hlt). }
  assert (Hup :
    entriesSortedByTranslationWithSuffix translator enum locale translationSuffix false
    = sortSlice (flip byKey) (Entries enum)).
  { apply sortSlice_ext; [apply NoDup_Entries|].
    intros a b Ha Hb Hne. unfold flip, byKey. simpl.
    destruct (ltb_total (EnumKey a) (EnumKey b)) as [Hlt|Hlt];
      [by apply (Entries_distinct_keys enum)| |].
    - rewrite (ltb_asym _ _ Hlt). by rewrite (ltb_asym _ _ (Hreverse a b Ha Hb Hlt)).
    - rewrite Hlt. by rewrite (Hreverse b a Hb Ha Hlt). }
  assert (Hsorter :
    OrderColumn (sorterWithSuffix mapper translator translationSuffix)
      path column direction locale
    = ({| Path := path; Dir := tableaux.Reverse direction; SortKeys := None |}, None)).
  { simpl. unfold orderColumnWithSortFunction, EnumMapper_Enum. rewrite Henum.
    rewrite Hup, Hdown.
    destruct (entriesAreTheSame (entriesSortedByKey enum)
                (sortSlice (flip byKey) (Entries enum))) eqn:Hsame.
    { apply entriesAreTheSame_eq in Hsame.
      by destruct (ascending_not_descending enum Hsize). }
    destruct (entriesAreTheSame (entriesSortedByKey enum) (entriesSortedByKey enum))
      eqn:Hrefl; [done|].
    assert (Htrue : entriesAreTheSame (entriesSortedByKey enum) (entriesSortedByKey enum)
                    = true) by by apply entriesAreTheSame_eq.
    congruence. }
  split; [exact Hsorter|].
  unfold sqlsource.OrderColumn, sqlsource.orderBySorter. simpl datasource.sortKeys.
  simpl datasource.direction. cbv iota beta. simpl (0 <? length [])%nat. cbv iota.
  rewrite Hsorter. reflexivity.
Qed.

End EnumOrder.

Section EnumOrderExamples.
Import config order sample.

Lemma sizes_entries (entry : KeyWithTranslation) :
  entry ∈ Entries sizes →
  entry = {| EnumKey := "LARGE"; TranslationKey := "enum.size.large" |}
  ∨ entry = {| EnumKey := "SMALL"; TranslationKey := "enum.size.small" |}.
Proof.
  intros Hin. apply elem_of_Entries in Hin. unfold sizes in Hin.
  destruct entry as [k t]. simpl in Hin.
  apply lookup_insert_Some in Hin as [[<- <-]|[_ Hin]]; [by left|].
  apply lookup_singleton_Some in Hin as [<- <-]. by right.
Qed.

Lemma enum_reverse_order_shortcut_witness :
  OrderColumn (EnumSorter sampleMapper sampleTranslator)
    "person.size" (enumColumn "person_size" "Size") tableaux.OrderAsc "de"
  = ({| Path := "person.size"; Dir := tableaux.OrderDesc; SortKeys := None |}, None)
  ∧ sqlsource.OrderColumn sqlsource.CommonQueryBuilder "person.size"
      (enumColumn "person_size" "Size") (EnumSorter sampleMapper sampleTranslator)
      {| datasource.Order_path := "person_size";
         datasource.direction := tableaux.OrderAsc;
         datasource.sortKeys := [] |} "de"
    = Returned "person.size DESC".
Proof.
  apply (enum_reverse_order_shortcut sampleMapper sampleTranslator ""
           "person.size" "de" (enumColumn "person_size" "Size") tableaux.OrderAsc sizes).
  - vm_compute. reflexivity.
  - vm_compute. lia.
  - intros a b Ha Hb.
    destruct (sizes_entries a Ha) as [->| ->], (sizes_entries b Hb) as [->| ->];
      vm_compute; congruence.
Defined.

(** C7 as stated fails: the translations of an enum with a single entry
    are in the reverse order of its keys (and in the same order), and
    the sorter keeps the requested direction. *)
Lemma enum_single_entry_keeps_direction :
  ¬ (∀ (mapper : EnumMapper) (translator : Translator)
       (translationSuffix path locale : string) (column : TableSchemaColumn)
       (direction : tableaux.Order) (enum : Enum),
       enums mapper !! Type_ column = Some enum →
       (∀ a b, a ∈ Entries enum → b ∈ Entries enum →
               String.ltb (EnumKey a) (EnumKey b) = true →
               String.ltb (translationOf translator locale translationSuffix b)
                          (translationOf translator locale translationSuffix a) = true) →
       entriesSortedByTranslationWithSuffix translator enum locale translationSuffix false
       = rev (entriesSortedByKey enum) →
       OrderColumn (sorterWithSuffix mapper translator translationSuffix)
         path column direction locale
       = ({| Path := path; Dir := tableaux.Reverse direction; SortKeys := None |}, None)).
Proof.
  intros H.
  specialize (H sampleMapper sampleTranslator "" "person.kind" "de"
                (enumColumn "person_kind" "Single") tableaux.OrderAsc single).
  assert (Hcode :
    OrderColumn (sorterWithSuffix sampleMapper sampleTranslator "")
      "person.kind" (enumColumn "person_kind" "Single") tableaux.OrderAsc "de"
    = ({| Path := "person.kind"; Dir := tableaux.OrderAsc; SortKeys := None |}, None))
    by (vm_compute; reflexivity).
  rewrite Hcode in H. clear Hcode.
  assert (Hne :
    ({| Path := "person.kind"; Dir := tableaux.OrderAsc; SortKeys := None |},
     @None error)
    ≠ ({| Path := "person.kind"; Dir := tableaux.Reverse tableaux.OrderAsc;
          SortKeys := None |}, None)) by discriminate.
  apply Hne, H.
  - vm_compute. reflexivity.
  - intros a b Ha Hb Hlt. exfalso.
    apply elem_of_Entries in Ha, Hb. unfold single in Ha, Hb.
    apply lookup_singleton_Some in Ha as [Ha _], Hb as [Hb _].
    rewrite <- Ha, <- Hb in Hlt. vm_compute in Hlt. discriminate.
  - vm_compute. reflexivity.
Qed.

End EnumOrderExamples.

(** * Further properties of the code *)

(** ** Identifiers are lower case *)

Section IdentifierForm.
Import strings util keyresolver further.

Lemma toLowerByte_lower c : isUpper (toLowerByte c) = false.
Proof. destruct c as [[] [] [] [] [] [] [] []]; reflexivity. Qed.

Lemma ToLower_noUpperCase (s : string) : noUpperCase (ToLower s) = true.
Proof.
  induction s as [|c s IH]; [done|].
  unfold noUpperCase, ToLower in *. simpl. by rewrite toLowerByte_lower, IH.
Qed.



Lemma DescriptorToIdentifier_lower (descriptor : string) :
  noUpperCase (DescriptorToIdentifier descriptor) = true.
Proof. apply ToLower_noUpperCase. Qed.




(** X3: an entry of the primary key map whose table name has an
    upper-case ASCII letter is never read, and neither is an entry of the
    foreign key map one of whose table names has one: with or without
    the entry every lookup gives the same. *)
Theorem key_resolver_upper_case_entry (keyResolver : CommonKeyResolver)
    (table : string) (keys : list string) (relation : TableDoublet)
    (relationKeys : list TableKeyDoublet) (tableName originName targetName : string) :
  noUpperCase table = false →
  noUpperCase (OriginName relation) = false ∨ noUpperCase (TargetName relation) = false →
  ResolvePrimaryKey
    {| primaryKeyMap := <[table := keys]> (primaryKeyMap keyResolver);
       foreignKeyMap := foreignKeyMap keyResolver |} tableName
  = ResolvePrimaryKey keyResolver tableName
  ∧ ResolveRelation
      {| primaryKeyMap := primaryKeyMap keyResolver;
         foreignKeyMap := <[relation := relationKeys]> (foreignKeyMap keyResolver) |}
      originName targetName
    = ResolveRelation keyResolver originName targetName.
Proof.
  intros Htable Hrelation.
  unfold ResolvePrimaryKey, ResolveRelation. simpl. split.
  - rewrite lookup_insert_ne; [done|]. intros ->.
    by rewrite DescriptorToIdentifier_lower in Htable.
  - rewrite lookup_insert_ne; [done|]. intros ->. simpl in Hrelation.
    rewrite !DescriptorToIdentifier_lower in Hrelation. by destruct Hrelation.
Qed.

Lemma key_resolver_upper_case_entry_witness :
  ResolvePrimaryKey
    {| primaryKeyMap := <["Person" := ["id"]]> (primaryKeyMap personKeys);
       foreignKeyMap := foreignKeyMap personKeys |} "Person"
  = ResolvePrimaryKey personKeys "Person"
  ∧ ResolveRelation
      {| primaryKeyMap := primaryKeyMap personKeys;
         foreignKeyMap :=
           <[{| OriginName := "Person"; TargetName := "organization" |} := []]>
             (foreignKeyMap personKeys) |}
      "Person" "organization"
    = ResolveRelation personKeys "Person" "organization".
Proof.
  apply (key_resolver_upper_case_entry personKeys "Person" ["id"]
           {| OriginName := "Person"; TargetName := "organization" |} []
           "Person" "Person" "organization").
  - reflexivity.
  - left. reflexivity.
Defined.

End IdentifierForm.

(** ** Prefixes, splitting and joining of strings *)

Section StringFacts.
Import strings further.

Lemma prefix_app (p s : string) : String.prefix p (p ++ s) = true.
Proof.
  induction p as [|c p IH]; simpl; [by destruct s|].
  destruct (ascii_dec c c); [done|congruence].
Qed.

Lemma prefix_exists (p s : string) : String.prefix p s = true ↔ ∃ t, s = p ++ t.
Proof.
  split.
  - revert s. induction p as [|c p IH]; intros s Hp.
    + by exists s.
    + destruct s as [|d s]; [done|]. simpl in Hp.
      destruct (ascii_dec c d) as [->|]; [|done].
      destruct (IH s Hp) as [t ->]. by exists t.
  - intros [t ->]. apply prefix_app.
Qed.

Lemma prefix_cons (a b : ascii) (p s : string) :
  String.prefix (String a p) (String b s) = true ↔ a = b ∧ String.prefix p s = true.
Proof.
  simpl. destruct (ascii_dec a b) as [->|Hne]; split; try done.
  - by intros [_ ?].
  - by intros [? _].
Qed.

Lemma append_assoc (a b c : string) : (a ++ b) ++ c = a ++ (b ++ c).
Proof.
  induction a as [|x a IH]; [done|].
  change (String x ((a ++ b) ++ c) = String x (a ++ b ++ c)). by rewrite IH.
Qed.

Lemma append_nil_r (s : string) : s ++ "" = s.
Proof.
  induction s as [|x s IH]; [done|].
  change (String x (s ++ "") = String x s). by rewrite IH.
Qed.

Lemma HasPrefix_shorter (s a b : string) :
  HasPrefix s (a ++ b) = true → HasPrefix s a = true.
Proof.
  unfold HasPrefix. rewrite !prefix_exists. intros [t ->].
  exists (b ++ t). apply append_assoc.
Qed.

Lemma Split_nonempty (s : string) (sep : ascii) : Split s sep ≠ [].
Proof.
  induction s as [|c s IH]; simpl; [done|].
  destruct (Ascii.eqb c sep); [done|]. by destruct (Split s sep).
Qed.

Lemma Split_pieces (s : string) (sep : ascii) :
  Forall (λ piece, noByte sep piece = true) (Split s sep).
Proof.
  induction s as [|c s IH]; simpl; [by repeat constructor|].
  destruct (Ascii.eqb c sep) eqn:Hc; [by constructor|].
  destruct (Split s sep) as [|piece pieces].
  - repeat constructor. unfold noByte. simpl. by rewrite Hc.
  - apply Forall_cons in IH as [Hpiece Hpieces]. constructor; [|done].
    unfold noByte in *. simpl. by rewrite Hc, Hpiece.
Qed.

Lemma Split_piece (piece : string) (sep : ascii) :
  noByte sep piece = true → Split piece sep = [piece].
Proof.
  induction piece as [|c s IH]; [done|].
  unfold noByte in *. simpl. intros [Hc Hs]%andb_prop.
  apply negb_true_iff in Hc. rewrite Hc, (IH Hs). done.
Qed.

Lemma Split_piece_sep (piece rest : string) (sep : ascii) :
  noByte sep piece = true →
  Split (piece ++ String sep rest) sep = piece :: Split rest sep.
Proof.
  induction piece as [|c s IH].
  - intros _. change ("" ++ String sep rest) with (String sep rest). simpl.
    by rewrite Ascii.eqb_refl.
  - unfold noByte in *. simpl. intros [Hc Hs]%andb_prop.
    apply negb_true_iff in Hc.
    change (String c s ++ String sep rest) with (String c (s ++ String sep rest)).
    simpl. by rewrite Hc, (IH Hs).
Qed.

Lemma Split_Join (pieces : list string) (sep : ascii) :
  pieces ≠ [] →
  Forall (λ piece, noByte sep piece = true) pieces →
  Split (Join pieces (String sep "")) sep = pieces.
Proof.
  induction pieces as [|piece rest IH]; [done|]. intros _ Hall.
  apply Forall_cons in Hall as [Hpiece Hrest].
  destruct rest as [|piece' rest'].
  - simpl. by apply Split_piece.
  - change (Join (piece :: piece' :: rest') (String sep ""))
      with (piece ++ String sep "" ++ Join (piece' :: rest') (String sep "")).
    change (String sep "" ++ Join (piece' :: rest') (String sep ""))
      with (String sep (Join (piece' :: rest') (String sep ""))).
    rewrite (Split_piece_sep _ _ _ Hpiece). by rewrite IH.
Qed.

Lemma Join_snoc (pieces : list string) (piece sep : string) :
  pieces ≠ [] →
  Join (pieces ++ [piece]) sep = Join pieces sep ++ sep ++ piece.
Proof.
  induction pieces as [|p rest IH]; [done|]. intros _.
  destruct rest as [|p' rest'].
  - reflexivity.
  - change (Join ((p :: p' :: rest') ++ [piece]) sep)
      with (p ++ sep ++ Join ((p' :: rest') ++ [piece]) sep).
    rewrite IH by done.
    change (Join (p :: p' :: rest') sep) with (p ++ sep ++ Join (p' :: rest') sep).
    by rewrite !append_assoc.
Qed.

Lemma ltb_proper_prefix (s : string) (c : ascii) (t : string) :
  String.ltb s (s ++ String c t) = true.
Proof.
  unfold String.ltb. induction s as [|x s IH]; [done|].
  change (String x s ++ String c t) with (String x (s ++ String c t)). simpl.
  assert (Hx : Ascii.compare x x = Eq).
  { unfold Ascii.compare. apply N.compare_refl. }
  by rewrite Hx.
Qed.

Lemma sorted_before (l : list string) (a b : string) :
  StronglySorted (λ a b, String.ltb a b = true) l →
  a ∈ l → b ∈ l → String.ltb a b = true →
  ∃ i j, (i < j)%nat ∧ l !! i = Some a ∧ l !! j = Some b.
Proof.
  intros Hsorted [i Hi]%list_elem_of_lookup [j Hj]%list_elem_of_lookup Hlt.
  assert (Hpair : ∀ i j x y, (i < j)%nat → l !! i = Some x → l !! j = Some y →
                             String.ltb x y = true).
  { clear -Hsorted. induction Hsorted as [|z l Hsorted IH Hall]; intros i j x y Hij Hx Hy.
    - by rewrite lookup_nil in Hx.
    - destruct j as [|j]; [lia|]. destruct i as [|i].
      + simpl in Hx, Hy. injection Hx as <-.
        apply (proj1 (Forall_forall _ _) Hall). by apply list_elem_of_lookup_2 in Hy.
      + simpl in Hx, Hy. apply (IH i j); [lia|done..]. }
  destruct (Nat.lt_trichotomy i j) as [Hij|[->|Hji]].
  - by exists i, j.
  - rewrite Hi in Hj. injection Hj as ->. by rewrite (ltb_asym _ _ Hlt) in Hlt.
  - pose proof (Hpair j i b a Hji Hj Hi) as Hba. by rewrite (ltb_asym _ _ Hlt) in Hba.
Qed.

End StringFacts.

(** ** Expansion of the extensions of a schema *)

Section SchemaExpansion.
Import strings config sample further.

Lemma resolveColumnWithPrefix_path (column : TableSchemaColumn) (prefix : string) :
  prefix ≠ "" →
  HasPrefix (Path (resolveColumnWithPrefix column prefix)) (prefix ++ "_") = true.
Proof.
  intros Hne. unfold resolveColumnWithPrefix. simpl.
  destruct (decide (prefix ≠ "")) as [_|?]; [|done].
  unfold HasPrefix. apply prefix_exists. eexists. symmetry. apply append_assoc.
Qed.

Lemma extensionPrefix_nonempty (entity prefix key : string) :
  prefix ≠ "" →
  extensionPrefix entity prefix key ≠ ""
  ∧ ∃ t, extensionPrefix entity prefix key ++ "_" = (prefix ++ "_") ++ t.
Proof.
  intros Hne. unfold extensionPrefix. cbv zeta.
  destruct (decide (prefix ≠ "")) as [_|?]; [|done].
  destruct (decide (prefix ≠ "" ∧ key ≠ "")) as [_|Hno].
  - split; [by destruct prefix|].
    exists (key ++ "_"). by rewrite !append_assoc.
  - destruct (decide (key ≠ "")) as [Hkey|_].
    + destruct Hno. by split.
    + split; [done|]. exists "". by rewrite append_nil_r.
Qed.

(** Below an extension every path starts with the prefix of the extension. *)
Lemma resolveColumnsWithPrefix_prefixed (fuel : nat) (resolvableSchema : TableSchema)
    (allSchemas : gmap string TableSchema) (prefix : string)
    (resolved : list TableSchemaColumn) (column : TableSchemaColumn) :
  prefix ≠ "" →
  resolveColumnsWithPrefix fuel resolvableSchema allSchemas prefix = Some (inr resolved) →
  column ∈ resolved →
  HasPrefix (Path column) (prefix ++ "_") = true.
Proof.
  revert resolvableSchema prefix resolved column.
  induction fuel as [|fuel IH]; intros schema prefix resolved column Hne; [done|].
  simpl.
  assert (Hown : ∀ c, c ∈ ((λ column, resolveColumnWithPrefix column prefix)
                             <$> Columns schema) →
                      HasPrefix (Path c) (prefix ++ "_") = true).
  { intros c (c0 & -> & _)%list_elem_of_fmap. by apply resolveColumnWithPrefix_path. }
  revert Hown.
  generalize ((λ column, resolveColumnWithPrefix column prefix) <$> Columns schema).
  induction (Extensions schema) as [|table rest IHrest]; intros acc Hacc.
  - intros [= <-]. apply Hacc.
  - destruct (allSchemas !! Table table) as [target|]; [|done].
    destruct (resolveColumnsWithPrefix fuel target allSchemas _)
      as [[err|cols]|] eqn:Hsub; [done| |done].
    apply IHrest. intros c [Hc|Hc]%elem_of_app; [by apply Hacc|].
    destruct (extensionPrefix_nonempty (Entity schema) prefix (Key table) Hne)
      as [Hext [t Ht]].
    pose proof (IH _ _ _ c Hext Hsub Hc) as Hp.
    rewrite Ht in Hp. by apply HasPrefix_shorter in Hp.
Qed.

(** X4: below an extension every column path starts with the prefix
    that the extension substitutes, followed by ['_']. *)
Theorem resolveColumnsWithPrefix_paths (fuel : nat) (resolvableSchema : TableSchema)
    (allSchemas : gmap string TableSchema) (prefix : string)
    (resolved : list TableSchemaColumn) (column : TableSchemaColumn) :
  prefix ≠ "" →
  resolveColumnsWithPrefix fuel resolvableSchema allSchemas prefix = Some (inr resolved) →
  column ∈ resolved →
  HasPrefix (Path column) (prefix ++ "_") = true.
Proof. apply resolveColumnsWithPrefix_prefixed. Qed.

Lemma resolveColumnsWithPrefix_paths_witness :
  resolveColumnsWithPrefix 1 abstractEntity companySchemas "company"
  = Some (inr [columnOn "company_uuid" ""; columnOn "company_createDateUtc" "";
               columnOn "company_lastModificationDateUtc" ""])
  ∧ HasPrefix (Path (columnOn "company_createDateUtc" "")) ("company" ++ "_") = true.
Proof.
  assert (Hrun :
    resolveColumnsWithPrefix 1 abstractEntity companySchemas "company"
    = Some (inr [columnOn "company_uuid" ""; columnOn "company_createDateUtc" "";
                 columnOn "company_lastModificationDateUtc" ""]))
    by (vm_compute; reflexivity).
  split; [exact Hrun|].
  apply (resolveColumnsWithPrefix_paths 1 abstractEntity companySchemas "company" _
           (columnOn "company_createDateUtc" "") ltac:(discriminate) Hrun).
  right. left.
Defined.

Lemma resolveColumnWithPrefix_empty (column : TableSchemaColumn) :
  resolveColumnWithPrefix column "" = column.
Proof. by destruct column. Qed.

Lemma extensionPrefix_top (entity key : string) :
  entity ≠ "" →
  extensionPrefix entity "" key ≠ ""
  ∧ ∃ t, extensionPrefix entity "" key ++ "_" = (entity ++ "_") ++ t.
Proof.
  intros Hne. unfold extensionPrefix. cbv zeta.
  destruct (decide ("" ≠ "")) as [?|_]; [done|].
  destruct (decide (entity ≠ "" ∧ key ≠ "")) as [_|Hno].
  - split; [by destruct entity|].
    exists (key ++ "_"). by rewrite !append_assoc.
  - destruct (decide (key ≠ "")) as [Hkey|_].
    + destruct Hno. by split.
    + split; [done|]. exists "". by rewrite append_nil_r.
Qed.

(** X5: at the top, the columns of the schema come first and unchanged;
    the columns of its extensions follow, each path starting with the
    entity of the schema and ['_']. *)
Theorem resolveColumnsWithPrefix_top (fuel : nat) (resolvableSchema : TableSchema)
    (allSchemas : gmap string TableSchema) (resolved : list TableSchemaColumn) :
  Entity resolvableSchema ≠ "" →
  resolveColumnsWithPrefix fuel resolvableSchema allSchemas "" = Some (inr resolved) →
  ∃ extended,
    resolved = (Columns resolvableSchema ++ extended)%list
    ∧ ∀ column, column ∈ extended →
                HasPrefix (Path column) (Entity resolvableSchema ++ "_") = true.
Proof.
  intros Hentity. destruct fuel as [|fuel]; [done|]. simpl.
  assert (Hown : (λ column, resolveColumnWithPrefix column "") <$> Columns resolvableSchema
                 = Columns resolvableSchema).
  { induction (Columns resolvableSchema) as [|c l IH]; [done|].
    rewrite fmap_cons, resolveColumnWithPrefix_empty. by f_equal. }
  rewrite Hown. clear Hown.
  assert (Hstart : ∃ extended,
    Columns resolvableSchema = (Columns resolvableSchema ++ extended)%list
    ∧ ∀ column, column ∈ extended →
                HasPrefix (Path column) (Entity resolvableSchema ++ "_") = true).
  { exists []. split; [by rewrite app_nil_r|]. by intros ? ?%elem_of_nil. }
  revert Hstart. generalize (Columns resolvableSchema) at 1 3 as acc.
  induction (Extensions resolvableSchema) as [|table rest IHrest]; intros acc Hacc.
  - by intros [= <-].
  - destruct (allSchemas !! Table table) as [target|]; [|done].
    destruct (resolveColumnsWithPrefix fuel target allSchemas _)
      as [[err|cols]|] eqn:Hsub; [done| |done].
    apply IHrest. destruct Hacc as (extended & -> & Hextended).
    exists (extended ++ cols)%list. split; [by rewrite app_assoc|].
    intros c [Hc|Hc]%elem_of_app; [by apply Hextended|].
    destruct (extensionPrefix_top (Entity resolvableSchema) (Key table) Hentity)
      as [Hext [t Ht]].
    pose proof (resolveColumnsWithPrefix_prefixed _ _ _ _ _ c Hext Hsub Hc) as Hp.
    rewrite Ht in Hp. by apply HasPrefix_shorter in Hp.
Qed.

Lemma resolveColumnsWithPrefix_top_witness :
  ∃ extended,
    [columnOn "company_companyKey" ""; columnOn "company_name" "";
     columnOn "company_uuid" ""; columnOn "company_createDateUtc" "";
     columnOn "company_lastModificationDateUtc" ""]
    = (Columns companies ++ extended)%list
    ∧ ∀ column, column ∈ extended →
                HasPrefix (Path column) (Entity companies ++ "_") = true.
Proof.
  apply (resolveColumnsWithPrefix_top 2 companies companySchemas).
  - discriminate.
  - vm_compute. reflexivity.
Defined.

(** X6: the only way the expansion fails is a missing schema: the error
    names a schema that an extension of the schema, or of a schema of the
    map, refers to and that the map does not have. *)
Theorem resolveColumnsWithPrefix_error (fuel : nat) (resolvableSchema : TableSchema)
    (allSchemas : gmap string TableSchema) (prefix : string) (err : error) :
  resolveColumnsWithPrefix fuel resolvableSchema allSchemas prefix = Some (inl err) →
  ∃ referring table,
    (referring = resolvableSchema ∨ ∃ name, allSchemas !! name = Some referring)
    ∧ table ∈ Extensions referring
    ∧ allSchemas !! Table table = None
    ∧ err = UnresolvableSchemaError (Table table).
Proof.
  revert resolvableSchema prefix.
  induction fuel as [|fuel IH]; intros schema prefix; [done|]. simpl.
  assert (Hsub : ∀ table, table ∈ Extensions schema → table ∈ Extensions schema) by done.
  revert Hsub.
  generalize ((λ column, resolveColumnWithPrefix column prefix) <$> Columns schema).
  generalize (Extensions schema) at 1 3 as extensions.
  induction extensions as [|table rest IHrest]; intros acc Hsub; [done|].
  destruct (allSchemas !! Table table) as [target|] eqn:Htarget.
  - destruct (resolveColumnsWithPrefix fuel target allSchemas _)
      as [[err'|cols]|] eqn:Hrec; [| |done].
    + intros [= <-]. destruct (IH _ _ Hrec) as (referring & t & Href & Hrest).
      exists referring, t. split; [|done].
      destruct Href as [->|?]; [right; by exists (Table table) | by right].
    + apply IHrest. intros t ?. apply Hsub. by right.
  - intros [= <-]. exists schema, table. split; [by left|].
    split; [apply Hsub; left | done].
Qed.

Lemma resolveColumnsWithPrefix_error_witness :
  ∃ referring table,
    (referring = orphan
     ∨ ∃ name, (∅ : gmap string TableSchema) !! name = Some referring)
    ∧ table ∈ Extensions referring
    ∧ (∅ : gmap string TableSchema) !! Table table = None
    ∧ UnresolvableSchemaError "missing" = UnresolvableSchemaError (Table table).
Proof.
  apply (resolveColumnsWithPrefix_error 1 orphan ∅ "").
  vm_compute. reflexivity.
Defined.

(** X7: a schema whose first extension refers to the schema itself is
    never resolved, whatever depth of recursion is allowed. *)
Theorem resolveColumnsWithPrefix_self_extension (fuel : nat)
    (resolvableSchema : TableSchema) (allSchemas : gmap string TableSchema)
    (prefix : string) (table : TableSchemaExtensionTable)
    (rest : list TableSchemaExtensionTable) :
  Extensions resolvableSchema = table :: rest →
  allSchemas !! Table table = Some resolvableSchema →
  resolveColumnsWithPrefix fuel resolvableSchema allSchemas prefix = None
  ∧ resolveColumns fuel resolvableSchema allSchemas = None.
Proof.
  intros Hext Hself.
  assert (Hloop : ∀ fuel prefix,
            resolveColumnsWithPrefix fuel resolvableSchema allSchemas prefix = None).
  { clear fuel prefix. induction fuel as [|fuel IH]; intros prefix; [done|].
    simpl. rewrite Hext, Hself. by rewrite IH. }
  split; [apply Hloop|]. unfold resolveColumns. by rewrite Hloop.
Qed.

Lemma resolveColumnsWithPrefix_self_extension_witness :
  resolveColumnsWithPrefix 5 node nodeSchemas "" = None
  ∧ resolveColumns 5 node nodeSchemas = None.
Proof.
  apply (resolveColumnsWithPrefix_self_extension 5 node nodeSchemas ""
           {| ExtensionTitle := "columns.parent"; Table := "nodes"; Key := "parent" |} []).
  - reflexivity.
  - vm_compute. reflexivity.
Defined.

End SchemaExpansion.

(** ** Resolved schemas *)

Section ResolvedSchemas.
Import strings config sample further.

Lemma excluded_deletable (schema : TableSchema) (column : TableSchemaColumn) :
  existsb (λ exclusion,
             negb (String.eqb (TrimPrefix (Path column) exclusion) (Path column)))
    (Exclusions schema)
  = excluded schema column.
Proof.
  unfold excluded. induction (Exclusions schema) as [|x l IH]; [done|].
  simpl. rewrite IH. f_equal.
  destruct (negb (String.eqb x "") && HasPrefix (Path column) x) eqn:Hx.
  - apply andb_prop in Hx as [Hne Hp]. apply negb_true_iff, String.eqb_neq in Hne.
    apply negb_true_iff, String.eqb_neq. by apply TrimPrefix_changes.
  - apply negb_false_iff, String.eqb_eq.
    destruct (decide (TrimPrefix (Path column) x = Path column)) as [|Hchanged]; [done|].
    apply TrimPrefix_changes in Hchanged as [Hp Hne].
    rewrite Hp, andb_true_r in Hx. apply negb_false_iff, String.eqb_eq in Hx. done.
Qed.

Lemma filter_ext_elem_of {A} (P Q : A → Prop) `{∀ x, Decision (P x)}
    `{∀ x, Decision (Q x)} (l : list A) :
  (∀ x, x ∈ l → P x ↔ Q x) → filter P l = filter Q l.
Proof.
  induction l as [|x l IH]; intros Hagree; [done|].
  rewrite !filter_cons.
  rewrite IH by (intros y ?; apply Hagree; by right).
  destruct (decide (P x)) as [HP|HP], (decide (Q x)) as [HQ|HQ]; try done.
  - destruct HQ. by apply (Hagree x); [left|].
  - destruct HP. by apply (Hagree x); [left|].
Qed.

Lemma length_filter_split {A} (P : A → bool) (l : list A) :
  (length (filter (λ x, P x = false) l) + length (filter (λ x, P x = true) l))%nat
  = length l.
Proof.
  induction l as [|x l IH]; [done|].
  rewrite !filter_cons. destruct (P x) eqn:HP.
  - rewrite decide_False by done. rewrite decide_True by done. simpl. lia.
  - rewrite decide_True by done. rewrite decide_False by done. simpl. lia.
Qed.

(** X8: the resolved columns are the expanded columns without the
    excluded ones, in their order, followed by one zero column for every
    removed column beyond the first of its path. *)
Theorem resolveColumns_layout (fuel : nat) (schema : TableSchema)
    (allSchemas : gmap string TableSchema) (newColumns : list TableSchemaColumn) :
  resolveColumnsWithPrefix fuel schema allSchemas "" = Some (inr newColumns) →
  resolveColumns fuel schema allSchemas
  = Some (inr (filter (λ column, excluded schema column = false) newColumns
               ++ replicate
                    (length (filter (λ column, excluded schema column = true) newColumns)
                     - size (list_to_set
                               (Path <$> filter (λ column, excluded schema column = true)
                                           newColumns) : gset string))
                    zeroColumn)%list).
Proof.
  intros Hnew. unfold resolveColumns. rewrite Hnew. cbv zeta.
  assert (Hdel : resolveDeletableColumns newColumns schema
                 = list_to_set (Path <$> filter (λ column, excluded schema column = true)
                                           newColumns)).
  { unfold resolveDeletableColumns. do 2 f_equal.
    apply filter_ext_elem_of. intros c _. by rewrite excluded_deletable. }
  rewrite Hdel.
  assert (Hkept :
    filter (λ column, Path column ∉ (list_to_set
              (Path <$> filter (λ column, excluded schema column = true) newColumns)
              : gset string)) newColumns
    = filter (λ column, excluded schema column = false) newColumns).
  { apply filter_ext_elem_of. intros c Hc.
    rewrite elem_of_list_to_set, list_elem_of_fmap. split.
    - intros Hnot. destruct (excluded schema c) eqn:Hex; [|done].
      destruct Hnot. exists c. split; [done|]. by apply list_elem_of_filter.
    - intros Hex (c' & Hpath & [Hex' _]%list_elem_of_filter).
      unfold excluded in Hex, Hex'. rewrite Hpath in Hex. congruence. }
  rewrite Hkept. do 3 f_equal.
  f_equal. pose proof (length_filter_split (excluded schema) newColumns). lia.
Qed.

Lemma resolveColumns_layout_witness :
  resolveColumns 1 item ∅ = Some (inr [columnOn "item_name" ""; zeroColumn]).
Proof.
  assert (Hrun : resolveColumnsWithPrefix 1 item ∅ "" = Some (inr (Columns item)))
    by (vm_compute; reflexivity).
  apply (eq_trans (resolveColumns_layout 1 item ∅ (Columns item) Hrun)).
  vm_compute. reflexivity.
Defined.

Lemma columnsMapOf_lookup (resolvedColumns : list TableSchemaColumn)
    (m : gmap string TableSchemaColumn) (key : string) (column : TableSchemaColumn) :
  foldl (λ m column, <[Path column := column]> m) m resolvedColumns !! key = Some column →
  (column ∈ resolvedColumns ∧ Path column = key) ∨ m !! key = Some column.
Proof.
  revert m. induction resolvedColumns as [|c l IH]; intros m; simpl; [by right|].
  intros [[Hin Hpath]|Hm]%IH.
  - left. split; [by right | done].
  - destruct (decide (Path c = key)) as [Heq|Hne].
    + rewrite <- Heq, lookup_insert_eq in Hm. injection Hm as <-. left. split; [left|done].
    + rewrite lookup_insert_ne in Hm by done. by right.
Qed.

Lemma columnsMapOf_is_Some (resolvedColumns : list TableSchemaColumn)
    (m : gmap string TableSchemaColumn) (key : string) :
  key ∈ (Path <$> resolvedColumns) ∨ is_Some (m !! key) →
  is_Some (foldl (λ m column, <[Path column := column]> m) m resolvedColumns !! key).
Proof.
  revert m. induction resolvedColumns as [|c l IH]; intros m; simpl.
  - intros [?%elem_of_nil|?]; done.
  - intros Hkey. apply IH.
    destruct Hkey as [[<-|Hin]%elem_of_cons|Hm]; [right| by left |right].
    + rewrite lookup_insert_eq. by eexists.
    + destruct (decide (Path c = key)) as [<-|Hne].
      * rewrite lookup_insert_eq. by eexists.
      * by rewrite lookup_insert_ne.
Qed.

(** What each entry of a successful [resolveEach] is. *)
Lemma resolveEach_entry (fuel : nat) (schemas : gmap string TableSchema)
    (entries : list (string * TableSchema))
    (resolvedSchemas result : gmap string ResolvedTableSchema)
    (table : string) (R : ResolvedTableSchema) :
  resolveEach fuel schemas entries resolvedSchemas = Some (inr result) →
  result !! table = Some R →
  resolvedSchemas !! table = Some R
  ∨ ∃ schema resolvedColumns,
      (table, schema) ∈ entries
      ∧ resolveColumns fuel schema schemas = Some (inr resolvedColumns)
      ∧ R = {| originalSchema := schema; columns := resolvedColumns;
               columnsMap := columnsMapOf resolvedColumns |}.
Proof.
  revert resolvedSchemas.
  induction entries as [|[name schema] rest IH]; intros acc Hrun Hlookup; simpl in Hrun.
  - injection Hrun as <-. by left.
  - destruct (resolveColumns fuel schema schemas) as [[err|cols]|] eqn:Hcols;
      [done| |done].
    destruct (IH _ Hrun Hlookup) as [Hacc|(schema' & cols' & Hin & Hres & ->)].
    + destruct (decide (name = table)) as [->|Hne].
      * rewrite lookup_insert_eq in Hacc. injection Hacc as <-.
        right. exists schema, cols. split; [left|done].
      * rewrite lookup_insert_ne in Hacc by done. by left.
    + right. exists schema', cols'. split; [by right|done].
Qed.

Lemma resolveEach_dom (fuel : nat) (schemas : gmap string TableSchema)
    (entries : list (string * TableSchema))
    (resolvedSchemas result : gmap string ResolvedTableSchema) (table : string) :
  resolveEach fuel schemas entries resolvedSchemas = Some (inr result) →
  is_Some (result !! table) ↔
  is_Some (resolvedSchemas !! table) ∨ table ∈ entries.*1.
Proof.
  revert resolvedSchemas.
  induction entries as [|[name schema] rest IH]; intros acc Hrun; simpl in Hrun.
  - injection Hrun as <-. split; [by left|]. by intros [?|?%elem_of_nil].
  - destruct (resolveColumns fuel schema schemas) as [[err|cols]|] eqn:Hcols;
      [done| |done].
    rewrite (IH _ Hrun). rewrite fmap_cons, elem_of_cons. simpl.
    destruct (decide (name = table)) as [->|Hne].
    + rewrite lookup_insert_eq. split; [intros _; right; by left|].
      intros _. left. by eexists.
    + rewrite lookup_insert_ne by done. split.
      * intros [?|?]; [by left | right; by right].
      * intros [?|[?|?]]; [by left | done | by right].
Qed.

(** X9: a successful resolution has a resolved schema exactly under the
    names of the schemas of the map, each with the schema of that name as
    its original and the resolved columns of that schema as its columns. *)
Theorem mapSchemasToResolvedSchemas_names (fuel : nat)
    (schemas : gmap string TableSchema)
    (resolvedSchemas : gmap string ResolvedTableSchema) (table : string) :
  mapSchemasToResolvedSchemas fuel schemas = Some (inr resolvedSchemas) →
  (is_Some (resolvedSchemas !! table) ↔ is_Some (schemas !! table))
  ∧ ∀ R, resolvedSchemas !! table = Some R →
         schemas !! table = Some (originalSchema R)
         ∧ resolveColumns fuel (originalSchema R) schemas = Some (inr (columns R)).
Proof.
  intros Hrun. split.
  - rewrite (resolveEach_dom _ _ _ _ _ table Hrun). rewrite lookup_empty. split.
    + intros [[? ?]|((t & schema) & -> & Hin%elem_of_map_to_list)%list_elem_of_fmap];
        [done|]. by eexists.
    + intros [schema Hschema]. right. apply list_elem_of_fmap.
      exists (table, schema). split; [done|]. by apply elem_of_map_to_list.
  - intros R HR.
    destruct (resolveEach_entry _ _ _ _ _ _ _ Hrun HR)
      as [Hempty|(schema & cols & Hin%elem_of_map_to_list & Hcols & ->)].
    + by rewrite lookup_empty in Hempty.
    + done.
Qed.

Lemma mapSchemasToResolvedSchemas_names_witness :
  (is_Some (companySchemasResolved !! "companies")
   ↔ is_Some (companySchemas !! "companies"))
  ∧ ∀ R, companySchemasResolved !! "companies" = Some R →
         companySchemas !! "companies" = Some (originalSchema R)
         ∧ resolveColumns 2 (originalSchema R) companySchemas = Some (inr (columns R)).
Proof.
  apply (mapSchemasToResolvedSchemas_names 2 companySchemas companySchemasResolved
           "companies").
  vm_compute. reflexivity.
Defined.

(** X10: in a resolved schema, [Column] finds exactly the paths of the
    resolved columns, and the column it returns is a resolved column
    with the path asked for. *)
Theorem resolved_Column_lookup (fuel : nat) (schemas : gmap string TableSchema)
    (resolvedSchemas : gmap string ResolvedTableSchema) (table : string)
    (R : ResolvedTableSchema) (key : string) :
  mapSchemasToResolvedSchemas fuel schemas = Some (inr resolvedSchemas) →
  resolvedSchemas !! table = Some R →
  ((Column R key).2 = None ↔ key ∈ (Path <$> columns R))
  ∧ ((Column R key).2 = Some ErrUnknownColumn ↔ key ∉ (Path <$> columns R))
  ∧ ∀ column, Column R key = (column, None) → column ∈ columns R ∧ Path column = key.
Proof.
  intros Hrun HR.
  destruct (resolveEach_entry _ _ _ _ _ _ _ Hrun HR)
    as [Hempty|(schema & cols & _ & _ & ->)]; [by rewrite lookup_empty in Hempty|].
  unfold Column. simpl. unfold columnsMapOf.
  destruct (foldl _ ∅ cols !! key) as [c|] eqn:Hlookup; simpl.
  - destruct (columnsMapOf_lookup _ _ _ _ Hlookup) as [[Hin Hpath]|Hempty];
      [|by rewrite lookup_empty in Hempty].
    assert (Hkey : key ∈ Path <$> cols).
    { apply list_elem_of_fmap. by exists c. }
    split; [done|]. split; [done|]. by intros ? [= <-].
  - assert (Hkey : key ∉ Path <$> cols).
    { intros Hkey. destruct (columnsMapOf_is_Some cols ∅ key (or_introl Hkey)) as [? Hsome].
      congruence. }
    split; [done|]. split; [done|]. by intros ? [=].
Qed.

Lemma resolved_Column_lookup_witness :
  ((Column companiesResolved "company_name").2 = None
   ↔ "company_name" ∈ (Path <$> columns companiesResolved))
  ∧ ((Column companiesResolved "company_name").2 = Some ErrUnknownColumn
     ↔ "company_name" ∉ (Path <$> columns companiesResolved))
  ∧ ∀ column, Column companiesResolved "company_name" = (column, None) →
              column ∈ columns companiesResolved ∧ Path column = "company_name".
Proof.
  apply (resolved_Column_lookup 2 companySchemas companySchemasResolved "companies"
           companiesResolved "company_name").
  - vm_compute. reflexivity.
  - vm_compute. reflexivity.
Defined.

End ResolvedSchemas.

(** ** Integrity of schemas and enum shortcuts *)

Section Integrity.
Import strings config.




(** X12: [TranslationKeyInEnum] gives a text without an error exactly
    when the text is not empty, and then the text is the entry of the key
    in the enum of that name; the error is [ErrUnknownEnum] exactly when
    the mapper has no enum of that name. *)
Theorem TranslationKeyInEnum_text (enumMapper : EnumMapper) (enum key : string) :
  ((EnumMapper_TranslationKeyInEnum enumMapper enum key).2 = None ↔
   (EnumMapper_TranslationKeyInEnum enumMapper enum key).1 ≠ "")
  ∧ ((EnumMapper_TranslationKeyInEnum enumMapper enum key).2 = None ↔
     ∃ fetchedEnum,
       enums enumMapper !! enum = Some fetchedEnum
       ∧ fetchedEnum !! key
         = Some (EnumMapper_TranslationKeyInEnum enumMapper enum key).1
       ∧ (EnumMapper_TranslationKeyInEnum enumMapper enum key).1 ≠ "")
  ∧ ((EnumMapper_TranslationKeyInEnum enumMapper enum key).2 = Some ErrUnknownEnum ↔
     enums enumMapper !! enum = None).
Proof.
  unfold EnumMapper_TranslationKeyInEnum, EnumMapper_Enum, Enum_TranslationKey.
  destruct (enums enumMapper !! enum) as [fetchedEnum|] eqn:Henum; simpl.
  - destruct (fetchedEnum !! key) as [text|] eqn:Hkey; simpl.
    + destruct (decide (text = "")) as [->|Hne]; simpl.
      * split; [done|]. split; [|done]. split; [done|]. by intros (? & _ & _ & ?).
      * split; [done|]. split; [|done]. split; [|done]. intros _. by exists fetchedEnum.
    + split; [done|]. split; [|done]. split; [done|]. by intros (? & _ & _ & ?).
  - split; [done|]. split; [|done]. split; [done|]. by intros (? & ? & _).
Qed.

End Integrity.

(** ** Ordering by sort keys and by enums *)

Section MoreSortKeys.
Import sqlsource further.

Lemma sanitizeKeys_Some (keys : list Value) :
  is_Some (sanitizeKeys keys) ↔ ∀ key, key ∈ keys → coercibleKey key = true.
Proof.
  induction keys as [|key keys IH]; simpl.
  - split; [by intros _ ? ?%elem_of_nil | by eexists].
  - destruct key as [s|z|z|b|r]; simpl;
      try (rewrite fmap_is_Some, IH; split;
           [ intros H key [->|?]%elem_of_cons; [done | by apply H]
           | intros H key ?; apply H; by right ]);
      (split; [by intros [? ?] | intros H; by specialize (H _ ltac:(left))]).
Qed.

(** X13: sort keys that all turn into strings and are already in
    ascending order give the simple ordering with the requested
    direction. *)
Theorem OrderColumn_ascending_keys (queryBuilder : QueryBuilder) (path : string)
    (column : config.TableSchemaColumn) (sorter : order.Sorter)
    (order : datasource.Order) (locale : string) (sanitizedKeys : list string) :
  sanitizeKeys (datasource.sortKeys order) = Some sanitizedKeys →
  sanitizedKeys ≠ [] →
  StronglySorted String.le sanitizedKeys →
  OrderColumn queryBuilder path column sorter order locale
  = Returned (qbOrderColumn queryBuilder path (datasource.direction order)).
Proof.
  intros Hkeys Hne Hsorted. unfold OrderColumn.
  destruct (datasource.sortKeys order) as [|key keys] eqn:Hlist.
  { simpl in Hkeys. by injection Hkeys as <-. }
  change (0 <? length (key :: keys))%nat with true. cbv iota. rewrite Hkeys.
  rewrite <- (sortStrings_unique sanitizedKeys sanitizedKeys) by done.
  by rewrite (proj2 (stringSlicesEqual_eq sanitizedKeys sanitizedKeys) eq_refl).
Qed.

Lemma OrderColumn_ascending_keys_witness :
  OrderColumn CommonQueryBuilder "person.name" config.zeroColumn order.Direct
    {| datasource.Order_path := "person_name";
       datasource.direction := tableaux.OrderDesc;
       datasource.sortKeys := [VInt64 7; VString "a"] |} "de"
  = Returned "person.name DESC".
Proof.
  apply (OrderColumn_ascending_keys CommonQueryBuilder "person.name" config.zeroColumn
           order.Direct
           {| datasource.Order_path := "person_name";
              datasource.direction := tableaux.OrderDesc;
              datasource.sortKeys := [VInt64 7; VString "a"] |} "de" ["7"; "a"]).
  - reflexivity.
  - discriminate.
  - repeat constructor.
Defined.

(** X14: a sort key that is neither a string nor an int64 nor a uint64
    switches the sort keys off: the order compiles as it does without
    sort keys. *)
Theorem OrderColumn_uncoercible_key (queryBuilder : QueryBuilder) (path : string)
    (column : config.TableSchemaColumn) (sorter : order.Sorter)
    (order : datasource.Order) (locale : string) (key : Value) :
  key ∈ datasource.sortKeys order →
  coercibleKey key = false →
  OrderColumn queryBuilder path column sorter order locale
  = OrderColumn queryBuilder path column sorter
      {| datasource.Order_path := datasource.Order_path order;
         datasource.direction := datasource.direction order;
         datasource.sortKeys := [] |} locale.
Proof.
  intros Hin Hkey. unfold OrderColumn.
  destruct (sanitizeKeys (datasource.sortKeys order)) as [ks|] eqn:Hks.
  - assert (Hall : is_Some (sanitizeKeys (datasource.sortKeys order))) by by eexists.
    rewrite sanitizeKeys_Some in Hall. rewrite (Hall key Hin) in Hkey. done.
  - simpl. by destruct (0 <? _)%nat.
Qed.

Lemma OrderColumn_uncoercible_key_witness :
  OrderColumn CommonQueryBuilder "person.name" config.zeroColumn order.Direct
    {| datasource.Order_path := "person_name";
       datasource.direction := tableaux.OrderAsc;
       datasource.sortKeys := [VString "b"; VBool true] |} "de"
  = OrderColumn CommonQueryBuilder "person.name" config.zeroColumn order.Direct
      {| datasource.Order_path := "person_name";
         datasource.direction := tableaux.OrderAsc;
         datasource.sortKeys := [] |} "de".
Proof.
  apply (OrderColumn_uncoercible_key CommonQueryBuilder "person.name" config.zeroColumn
           order.Direct
           {| datasource.Order_path := "person_name";
              datasource.direction := tableaux.OrderAsc;
              datasource.sortKeys := [VString "b"; VBool true] |} "de" (VBool true)).
  - simpl. right. left.
  - reflexivity.
Defined.

End MoreSortKeys.

Section MoreEnumOrder.
Import config order shape.

Variable mapper : EnumMapper.
Variable translator : Translator.

(** X15: when the translations of an enum are in the order of its keys,
    the enum sorter answers with the path, the requested direction and no
    sort keys. *)
Theorem enum_same_order_shortcut (translationSuffix path locale : string)
    (column : TableSchemaColumn) (direction : tableaux.Order) (enum : Enum) :
  enums mapper !! Type_ column = Some enum →
  (∀ a b, a ∈ Entries enum → b ∈ Entries enum →
          String.ltb (EnumKey a) (EnumKey b) = true →
          String.ltb (translationOf translator locale translationSuffix a)
                     (translationOf translator locale translationSuffix b) = true) →
  OrderColumn (sorterWithSuffix mapper translator translationSuffix)
    path column direction locale
  = ({| Path := path; Dir := direction; SortKeys := None |}, None).
Proof.
  intros Henum Hsame.
  assert (Hup :
    entriesSortedByTranslationWithSuffix translator enum locale translationSuffix false
    = entriesSortedByKey enum).
  { apply sortSlice_ext; [apply NoDup_Entries|].
    intros a b Ha Hb Hne. simpl.
    destruct (ltb_total (EnumKey a) (EnumKey b)) as [Hlt|Hlt];
      [by apply (Entries_distinct_keys enum)| |].
    - by rewrite Hlt, (Hsame a b Ha Hb Hlt).
    - by rewrite (ltb_asym _ _ Hlt), (ltb_asym _ _ (Hsame b a Hb Ha Hlt)). }
  simpl. unfold orderColumnWithSortFunction, EnumMapper_Enum. rewrite Henum, Hup.
  by rewrite (proj2 (entriesAreTheSame_eq _ _) eq_refl).
Qed.

(** X16: whatever the enum sorter answers, it keeps the path; and when it
    answers with sort keys, these are the keys of the enum, each once,
    with the requested direction. *)
Theorem enum_sort_keys_cover (translationSuffix path locale : string)
    (column : TableSchemaColumn) (direction : tableaux.Order) (enum : Enum)
    (resolved : ResolvedOrder) :
  enums mapper !! Type_ column = Some enum →
  OrderColumn (sorterWithSuffix mapper translator translationSuffix)
    path column direction locale = (resolved, None) →
  Path resolved = path
  ∧ ∀ keys, SortKeys resolved = Some keys →
            Dir resolved = direction
            ∧ keys ≡ₚ (λ kv, VString kv.1) <$> map_to_list enum.
Proof.
  intros Henum. simpl. unfold orderColumnWithSortFunction, EnumMapper_Enum.
  rewrite Henum.
  destruct (entriesAreTheSame _ _); [intros [= <-]; by split|].
  destruct (entriesAreTheSame _ _); [intros [= <-]; by split|].
  intros [= <-]. split; [done|]. simpl. intros keys [= <-]. split; [done|].
  unfold entriesSortedByTranslationWithSuffix. rewrite sortSlice_Permutation.
  unfold Entries. rewrite <- list_fmap_compose. done.
Qed.

(** X17: for a column whose type is not an enum of the mapper the enum
    sorter answers with [ErrUnknownEnum], and compiling an order without
    sort keys on that column panics with that error. *)
Theorem enum_unknown_type_panics (translationSuffix path locale : string)
    (column : TableSchemaColumn) (direction : tableaux.Order)
    (queryBuilder : sqlsource.QueryBuilder) (columnPath : string) :
  enums mapper !! Type_ column = None →
  (OrderColumn (sorterWithSuffix mapper translator translationSuffix)
     path column direction locale).2 = Some ErrUnknownEnum
  ∧ sqlsource.OrderColumn queryBuilder path column
      (sorterWithSuffix mapper translator translationSuffix)
      {| datasource.Order_path := columnPath;
         datasource.direction := direction;
         datasource.sortKeys := [] |} locale
    = Panicked "unknown enum".
Proof.
  intros Henum.
  assert (Hsorter :
    OrderColumn (sorterWithSuffix mapper translator translationSuffix)
      path column direction locale = (zeroResolvedOrder, Some ErrUnknownEnum)).
  { simpl. unfold orderColumnWithSortFunction, EnumMapper_Enum. by rewrite Henum. }
  split; [by rewrite Hsorter|].
  unfold sqlsource.OrderColumn, sqlsource.orderBySorter. simpl datasource.sortKeys.
  simpl datasource.direction. cbv iota beta. simpl (0 <? length [])%nat. cbv iota.
  by rewrite Hsorter.
Qed.

End MoreEnumOrder.

Section MoreEnumOrderExamples.
Import config order sample further.

Lemma colors_entries (entry : KeyWithTranslation) :
  entry ∈ Entries colors →
  entry = {| EnumKey := "BLUE"; TranslationKey := "enum.color.blue" |}
  ∨ entry = {| EnumKey := "RED"; TranslationKey := "enum.color.red" |}.
Proof.
  intros Hin. apply elem_of_Entries in Hin. unfold colors in Hin.
  destruct entry as [k t]. simpl in Hin.
  apply lookup_insert_Some in Hin as [[<- <-]|[_ Hin]]; [by left|].
  apply lookup_singleton_Some in Hin as [<- <-]. by right.
Qed.

Lemma enum_same_order_shortcut_witness :
  OrderColumn (sorterWithSuffix paletteMapper paletteTranslator "")
    "car.color" (enumColumn "car_color" "Color") tableaux.OrderDesc "de"
  = ({| Path := "car.color"; Dir := tableaux.OrderDesc; SortKeys := None |}, None).
Proof.
  apply (enum_same_order_shortcut paletteMapper paletteTranslator "" "car.color" "de"
           (enumColumn "car_color" "Color") tableaux.OrderDesc colors).
  - vm_compute. reflexivity.
  - intros a b Ha Hb.
    destruct (colors_entries a Ha) as [->| ->], (colors_entries b Hb) as [->| ->];
      vm_compute; congruence.
Defined.

Lemma enum_sort_keys_cover_witness :
  Path {| Path := "pupil.grade"; Dir := tableaux.OrderAsc;
          SortKeys := Some [VString "C"; VString "A"; VString "B"] |} = "pupil.grade"
  ∧ ∀ keys,
      SortKeys {| Path := "pupil.grade"; Dir := tableaux.OrderAsc;
                  SortKeys := Some [VString "C"; VString "A"; VString "B"] |}
      = Some keys →
      Dir {| Path := "pupil.grade"; Dir := tableaux.OrderAsc;
             SortKeys := Some [VString "C"; VString "A"; VString "B"] |}
      = tableaux.OrderAsc
      ∧ keys ≡ₚ (λ kv, VString kv.1) <$> map_to_list grades.
Proof.
  apply (enum_sort_keys_cover paletteMapper paletteTranslator "" "pupil.grade" "de"
           (enumColumn "pupil_grade" "Grade") tableaux.OrderAsc grades).
  - vm_compute. reflexivity.
  - vm_compute. reflexivity.
Defined.

Lemma enum_unknown_type_panics_witness :
  (OrderColumn (sorterWithSuffix paletteMapper paletteTranslator "")
     "car.wheel" (enumColumn "car_wheel" "Wheel") tableaux.OrderAsc "de").2
  = Some ErrUnknownEnum
  ∧ sqlsource.OrderColumn sqlsource.CommonQueryBuilder "car.wheel"
      (enumColumn "car_wheel" "Wheel")
      (sorterWithSuffix paletteMapper paletteTranslator "")
      {| datasource.Order_path := "car_wheel";
         datasource.direction := tableaux.OrderAsc;
         datasource.sortKeys := [] |} "de"
    = Panicked "unknown enum".
Proof.
  apply (enum_unknown_type_panics paletteMapper paletteTranslator "" "car.wheel" "de"
           (enumColumn "car_wheel" "Wheel") tableaux.OrderAsc
           sqlsource.CommonQueryBuilder "car_wheel").
  vm_compute. reflexivity.
Defined.

End MoreEnumOrderExamples.

(** ** Filter groups: one bucket, several groups, rejected filters *)

Section MoreFilterGroups.
Import strings sqlsource.

(** Filters that all get one operator fill one bucket, in order. *)
Lemma bucketFilters_single (filtery : filter.Filter) (operator : filter.Operator)
    (filters : list datasource.Filter)
    (filterModeMap : gmap filter.Operator (list Value)) :
  (∀ f, f ∈ filters →
        filter.Operator_ filtery (datasource.value f) (datasource.filterMode f)
        = (operator, None)) →
  filters ≠ [] →
  bucketFilters filtery filters filterModeMap
  = inr (<[operator :=
             (default [] (filterModeMap !! operator)
                ++ (datasource.value <$> filters))%list]> filterModeMap).
Proof.
  revert filterModeMap.
  induction filters as [|f rest IH]; intros m Hop Hne; [done|].
  simpl. rewrite (Hop f) by left.
  destruct rest as [|f' rest'].
  - reflexivity.
  - rewrite IH; [|intros; apply Hop; by right|done].
    rewrite lookup_insert_eq. simpl. rewrite insert_insert_eq.
    by rewrite <- app_assoc.
Qed.

(** A group with one bucket compiles as [FilterStringFromValues] does on
    the values of the group. *)
Lemma FilterColumn_one_bucket (path : string) (filtery : filter.Filter)
    (operator : filter.Operator) (filterGroup : datasource.FilterGroup)
    (predicate : string) (err : option error) :
  (∀ f, f ∈ datasource.filters filterGroup →
        filter.Operator_ filtery (datasource.value f) (datasource.filterMode f)
        = (operator, None)) →
  datasource.filters filterGroup ≠ [] →
  Common_FilterStringFromValues path filtery operator
    (datasource.value <$> datasource.filters filterGroup) = Returned (predicate, err) →
  FilterColumn CommonQueryBuilder path filtery [filterGroup]
  = Returned (match err with None => predicate | Some _ => "" end, err).
Proof.
  intros Hop Hne Hvalues. unfold FilterColumn. simpl.
  rewrite (bucketFilters_single filtery operator) by done.
  rewrite lookup_empty. simpl. rewrite insert_empty, map_to_list_singleton. simpl.
  rewrite Hvalues. simpl. by destruct err.
Qed.

(** X18: a filter group whose filters all have mode [NOT_EQUALS], whose
    strategy gives each of its values the operator [!=] and parses them,
    and which has at least two values, compiles to
    [path NOT IN (v1,...,vn)]. *)
Theorem FilterColumn_not_in_collapse (path : string) (filtery : filter.Filter)
    (filterGroup : datasource.FilterGroup) (parsedValues : list string) :
  (∀ f, f ∈ datasource.filters filterGroup →
        datasource.filterMode f = tableaux.FilterNotEquals) →
  (∀ f, f ∈ datasource.filters filterGroup →
        filter.Operator_ filtery (datasource.value f) tableaux.FilterNotEquals
        = (filter.OperatorNotEqual, None)) →
  parseValues filtery (datasource.value <$> datasource.filters filterGroup)
  = Returned parsedValues →
  (2 ≤ length (datasource.filters filterGroup))%nat →
  FilterColumn CommonQueryBuilder path filtery [filterGroup]
  = Returned (path ++ " NOT IN (" ++ Join parsedValues "," ++ ")", None).
Proof.
  intros Hmode Hop Hparse Hlen.
  apply (FilterColumn_one_bucket path filtery filter.OperatorNotEqual filterGroup
           (path ++ " NOT IN (" ++ Join parsedValues "," ++ ")") None).
  - intros f Hin. rewrite (Hmode f Hin). by apply Hop.
  - intros Hnil. rewrite Hnil in Hlen. simpl in Hlen. lia.
  - unfold Common_FilterStringFromValues. rewrite Hparse. simpl.
    destruct (decide (length _ = 1%nat)) as [Hone|_]; [|reflexivity].
    rewrite length_fmap in Hone. lia.
Qed.

Lemma FilterColumn_not_in_collapse_witness :
  FilterColumn CommonQueryBuilder "person.name" filter.PlainString
    [datasource.NewSimpleFilterGroup "person_name" tableaux.FilterNotEquals
       [VString "Ann"; VString "Bob"]]
  = Returned ("person.name NOT IN ('Ann','Bob')", None).
Proof.
  apply (FilterColumn_not_in_collapse "person.name" filter.PlainString
           (datasource.NewSimpleFilterGroup "person_name" tableaux.FilterNotEquals
              [VString "Ann"; VString "Bob"]) ["'Ann'"; "'Bob'"]).
  - intros f Hin.
    apply elem_of_cons in Hin as [->|Hin]; [reflexivity|].
    apply elem_of_cons in Hin as [->|Hin]; [reflexivity|].
    by apply elem_of_nil in Hin.
  - intros f Hin. reflexivity.
  - reflexivity.
  - simpl. lia.
Defined.

(** X19: two or more values under one of the operators for order
    comparisons or [LIKE] are compared one by one, chained with [OR], in
    filter order. *)
Theorem FilterColumn_or_chain (path : string) (filtery : filter.Filter)
    (operator : filter.Operator) (filterGroup : datasource.FilterGroup)
    (parsedValues : list string) :
  operator ∈ [filter.OperatorGreater; filter.OperatorGreaterEquals;
              filter.OperatorLesser; filter.OperatorLesserEquals;
              filter.OperatorLike] →
  (∀ f, f ∈ datasource.filters filterGroup →
        filter.Operator_ filtery (datasource.value f) (datasource.filterMode f)
        = (operator, None)) →
  parseValues filtery (datasource.value <$> datasource.filters filterGroup)
  = Returned parsedValues →
  (2 ≤ length (datasource.filters filterGroup))%nat →
  FilterColumn CommonQueryBuilder path filtery [filterGroup]
  = Returned (Join ((λ value, path ++ " " ++ operator ++ " " ++ value) <$> parsedValues)
                " OR ", None).
Proof.
  intros Hoperator Hop Hparse Hlen.
  apply (FilterColumn_one_bucket path filtery operator filterGroup _ None).
  - done.
  - intros Hnil. rewrite Hnil in Hlen. simpl in Hlen. lia.
  - unfold Common_FilterStringFromValues. rewrite Hparse. simpl.
    destruct (decide (length _ = 1%nat)) as [Hone|_].
    { rewrite length_fmap in Hone. lia. }
    assert (Hne : operator ≠ filter.OperatorEqual ∧ operator ≠ filter.OperatorNotEqual).
    { split; intros ->;
        repeat (apply elem_of_cons in Hoperator as [Hoperator|Hoperator];
                [discriminate|]);
        by apply elem_of_nil in Hoperator. }
    destruct Hne as [Hne1 Hne2].
    rewrite decide_False by done. rewrite decide_False by done.
    by rewrite decide_True.
Qed.

Lemma FilterColumn_or_chain_witness :
  FilterColumn CommonQueryBuilder "person.age" filter.Numeric
    [datasource.NewSimpleFilterGroup "person_age" tableaux.FilterGreater
       [VInt64 18; VInt64 21]]
  = Returned ("person.age GREATER 18 OR person.age GREATER 21", None).
Proof.
  apply (FilterColumn_or_chain "person.age" filter.Numeric filter.OperatorGreater
           (datasource.NewSimpleFilterGroup "person_age" tableaux.FilterGreater
              [VInt64 18; VInt64 21]) ["18"; "21"]).
  - left.
  - intros f Hin.
    apply elem_of_cons in Hin as [->|Hin]; [reflexivity|].
    apply elem_of_cons in Hin as [->|Hin]; [reflexivity|].
    by apply elem_of_nil in Hin.
  - reflexivity.
  - simpl. lia.
Defined.

(** X20: two or more wildcard values with mode [NOT_EQUALS] under the
    regular-expression strategy do not compile: the operator [NOT LIKE]
    has no case for several values, and the result is an empty predicate
    with the error of the unknown operator. *)
Theorem FilterColumn_not_like_fails (path : string)
    (filterGroup : datasource.FilterGroup) :
  (∀ f, f ∈ datasource.filters filterGroup →
        datasource.filterMode f = tableaux.FilterNotEquals
        ∧ ∃ s, datasource.value f = VString s ∧ Contains s ".*" = true) →
  (2 ≤ length (datasource.filters filterGroup))%nat →
  FilterColumn CommonQueryBuilder path filter.RegexString [filterGroup]
  = Returned ("", Some (ErrorMessage "unknown operator NOT LIKE")).
Proof.
  intros Hfilters Hlen.
  assert (Hparse : ∃ parsedValues,
    parseValues filter.RegexString (datasource.value <$> datasource.filters filterGroup)
    = Returned parsedValues).
  { unfold parseValues. clear Hlen.
    induction (datasource.filters filterGroup) as [|f l IH]; [by eexists|].
    destruct (Hfilters f ltac:(left)) as (_ & s & Hs & _).
    destruct IH as [parsed Hparsed]; [intros f' ?; apply Hfilters; by right|].
    eexists. rewrite fmap_cons. simpl. rewrite Hs. simpl.
    change filter.RegexString_ParseValue with (filter.ParseValue filter.RegexString).
    rewrite Hparsed. done. }
  destruct Hparse as [parsedValues Hparse].
  apply (FilterColumn_one_bucket path filter.RegexString filter.OperatorNotLike
           filterGroup "" (Some (ErrorMessage "unknown operator NOT LIKE"))).
  - intros f Hin. destruct (Hfilters f Hin) as (-> & s & -> & Hs). simpl.
    by rewrite Hs.
  - intros Hnil. rewrite Hnil in Hlen. simpl in Hlen. lia.
  - unfold Common_FilterStringFromValues. rewrite Hparse. simpl.
    destruct (decide (length _ = 1%nat)) as [Hone|_]; [|reflexivity].
    rewrite length_fmap in Hone. lia.
Qed.

Lemma FilterColumn_not_like_fails_witness :
  FilterColumn CommonQueryBuilder "person.name" filter.RegexString
    [datasource.NewSimpleFilterGroup "person_name" tableaux.FilterNotEquals
       [VString "A.*"; VString "B.*"]]
  = Returned ("", Some (ErrorMessage "unknown operator NOT LIKE")).
Proof.
  apply (FilterColumn_not_like_fails "person.name"
           (datasource.NewSimpleFilterGroup "person_name" tableaux.FilterNotEquals
              [VString "A.*"; VString "B.*"])).
  - intros f Hin.
    apply elem_of_cons in Hin as [->|Hin];
      [split; [reflexivity|]; exists "A.*"; split; reflexivity|].
    apply elem_of_cons in Hin as [->|Hin];
      [split; [reflexivity|]; exists "B.*"; split; reflexivity|].
    by apply elem_of_nil in Hin.
  - simpl. lia.
Defined.

End MoreFilterGroups.

Section FilterComposition.
Import strings sqlsource.




(** X22: when the strategy rejects the mode or the value of a filter of
    the first group, no predicate is compiled and no value is parsed: the
    result is the empty predicate with the error of the first rejected
    filter, whatever the other groups are. *)
Theorem FilterColumn_rejected_filter (queryBuilder : QueryBuilder) (path : string)
    (filtery : filter.Filter) (filterGroup : datasource.FilterGroup)
    (filterGroups : list datasource.FilterGroup)
    (accepted : list datasource.Filter) (rejected : datasource.Filter)
    (later : list datasource.Filter) (operator : filter.Operator) (err : error) :
  datasource.filters filterGroup = (accepted ++ rejected :: later)%list →
  (∀ f, f ∈ accepted →
        (filter.Operator_ filtery (datasource.value f) (datasource.filterMode f)).2
        = None) →
  filter.Operator_ filtery (datasource.value rejected) (datasource.filterMode rejected)
  = (operator, Some err) →
  FilterColumn queryBuilder path filtery (filterGroup :: filterGroups)
  = Returned ("", Some err).
Proof.
  intros Hfilters Haccepted Hrejected. unfold FilterColumn. simpl. rewrite Hfilters.
  assert (Hbucket : ∀ m, bucketFilters filtery (accepted ++ rejected :: later) m
                         = inl err).
  { clear Hfilters. induction accepted as [|f l IH]; intros m; simpl.
    - by rewrite Hrejected.
    - pose proof (Haccepted f ltac:(left)) as Hf.
      destruct (filter.Operator_ filtery (datasource.value f) (datasource.filterMode f))
        as [op [e|]]; simpl in Hf; [done|].
      apply IH. intros f' ?. apply Haccepted. by right. }
  by rewrite Hbucket.
Qed.

Lemma FilterColumn_rejected_filter_witness :
  FilterColumn CommonQueryBuilder "person.name" filter.PlainString
    [{| datasource.path := "person_name";
        datasource.filters :=
          [{| datasource.filterMode := tableaux.FilterEquals;
              datasource.value := VString "Ann" |};
           {| datasource.filterMode := "CONTAINS";
              datasource.value := VString "nn" |}] |}]
  = Returned ("", Some (ErrorMessage "unknown filter mode CONTAINS")).
Proof.
  apply (FilterColumn_rejected_filter CommonQueryBuilder "person.name"
           filter.PlainString
           {| datasource.path := "person_name";
              datasource.filters :=
                [{| datasource.filterMode := tableaux.FilterEquals;
                    datasource.value := VString "Ann" |};
                 {| datasource.filterMode := "CONTAINS";
                    datasource.value := VString "nn" |}] |}
           []
           [{| datasource.filterMode := tableaux.FilterEquals;
               datasource.value := VString "Ann" |}]
           {| datasource.filterMode := "CONTAINS"; datasource.value := VString "nn" |}
           [] "").
  - reflexivity.
  - intros f Hin.
    apply elem_of_cons in Hin as [->|Hin]; [reflexivity|].
    by apply elem_of_nil in Hin.
  - reflexivity.
Defined.

End FilterComposition.

(** ** Parsed filter values *)

Section FilterValues.
Import strings filter.

Lemma replace_wildcard_match (rest : string) :
  ReplaceAll (String "." (String "*" rest)) ".*" "%"
  = String "%" (ReplaceAll rest ".*" "%").
Proof. unfold ReplaceAll. simpl. by destruct rest. Qed.

Lemma replace_wildcard_other (c : ascii) (rest : string) :
  String.prefix ".*" (String c rest) = false →
  ReplaceAll (String c rest) ".*" "%" = String c (ReplaceAll rest ".*" "%").
Proof. unfold ReplaceAll. cbn [replaceFrom]. by intros ->. Qed.

Lemma replace_wildcard_bounded (n : nat) :
  ∀ s, (String.length s ≤ n)%nat →
       Contains (ReplaceAll s ".*" "%") ".*" = false
       ∧ (String.prefix "*" (ReplaceAll s ".*" "%") = true → String.prefix "*" s = true).
Proof.
  induction n as [|n IH]; intros [|c rest] Hlen; simpl in Hlen; try done; try lia.
  destruct (String.prefix ".*" (String c rest)) eqn:Hmatch.
  - apply prefix_cons in Hmatch as [<- Hstar].
    destruct rest as [|d rest']; [done|].
    apply prefix_cons in Hstar as [<- _].
    rewrite replace_wildcard_match.
    destruct (IH rest') as [Hrest _]; [simpl in Hlen; lia|].
    split; [|done].
    change (Contains (String "%" (ReplaceAll rest' ".*" "%")) ".*")
      with (false || Contains (ReplaceAll rest' ".*" "%") ".*").
    by rewrite Hrest.
  - rewrite (replace_wildcard_other c rest Hmatch).
    destruct (IH rest) as [Hrest Hstart]; [lia|].
    split.
    + change (Contains (String c (ReplaceAll rest ".*" "%")) ".*")
        with (String.prefix ".*" (String c (ReplaceAll rest ".*" "%"))
              || Contains (ReplaceAll rest ".*" "%") ".*").
      rewrite Hrest, orb_false_r.
      destruct (String.prefix ".*" (String c (ReplaceAll rest ".*" "%"))) eqn:Hout;
        [|done].
      apply prefix_cons in Hout as [<- Hstar]. apply Hstart in Hstar.
      rewrite <- Hmatch. symmetry. by apply prefix_cons.
    + intros [<- _]%prefix_cons. apply prefix_cons. split; [done | by destruct rest].
Qed.

(** X23: what the regular-expression strategy parses a string to is the
    string in single quotes with every [.*] replaced by [%], and between
    the quotes no [.*] is left. *)
Theorem RegexString_ParseValue_no_wildcard (s : string) :
  RegexString_ParseValue (VString s) = Returned ("'" ++ ReplaceAll s ".*" "%" ++ "'")
  ∧ Contains (ReplaceAll s ".*" "%") ".*" = false.
Proof.
  split; [done|]. by apply (replace_wildcard_bounded (String.length s)).
Qed.




End FilterValues.

(** ** The order of the planned joins, and the count joins *)

Section JoinOrder.
Import strings config sqlsource handler sample further.

Lemma calculatePathsForJoins_elem_of (columns : list config.TableSchemaColumn)
    (orders : list datasource.Order) (filters : list datasource.FilterGroup)
    (joinPath : string) :
  joinPath ∈ calculatePathsForJoins columns orders filters ↔
  ∃ columnPath, columnPath ∈ mergedParticipatingPaths columns orders filters
                ∧ joinPath ∈ joinPathsOf columnPath.
Proof.
  unfold calculatePathsForJoins.
  destruct (decide (size _ = 0%nat)) as [Hempty|_].
  - apply size_empty_inv in Hempty. apply leibniz_equiv in Hempty. rewrite Hempty.
    split; [by intros ?%elem_of_nil|]. by intros (? & ?%not_elem_of_empty & _).
  - rewrite sortStrings_Permutation, elem_of_elements, elem_of_list_to_set.
    rewrite list_elem_of_bind. split.
    + intros (p & ? & ?%elem_of_elements). by exists p.
    + intros (p & ? & ?). exists p. split; [done|]. by apply elem_of_elements.
Qed.

Lemma calculatePathsForJoins_ascending (columns : list config.TableSchemaColumn)
    (orders : list datasource.Order) (filters : list datasource.FilterGroup) :
  StronglySorted (λ a b, String.ltb a b = true)
    (calculatePathsForJoins columns orders filters).
Proof.
  unfold calculatePathsForJoins.
  destruct (decide (size _ = 0%nat)) as [_|_]; [constructor|].
  apply sorted_NoDup_strict; [apply sortStrings_sorted|].
  rewrite sortStrings_Permutation. apply NoDup_elements.
Qed.

(** X25: every planned join path has at least two segments, and for a
    longer one the join path of its parent (all but its last segment) is
    planned as well and stands before it in the list. *)
Theorem calculatePathsForJoins_parent_first (columns : list config.TableSchemaColumn)
    (orders : list datasource.Order) (filters : list datasource.FilterGroup)
    (joinPath : string) :
  joinPath ∈ calculatePathsForJoins columns orders filters →
  (2 ≤ length (Split joinPath underscore))%nat
  ∧ ((2 < length (Split joinPath underscore))%nat →
     ∃ i j, (i < j)%nat
            ∧ calculatePathsForJoins columns orders filters !! i
              = Some (Join (take (length (Split joinPath underscore) - 1)
                              (Split joinPath underscore)) "_")
            ∧ calculatePathsForJoins columns orders filters !! j = Some joinPath).
Proof.
  intros Hin.
  pose proof Hin as (p & Hp & (i & Hi & ->)%elem_of_joinPathsOf)%calculatePathsForJoins_elem_of.
  pose proof (Split_pieces p underscore) as Hpieces.
  remember (Split p underscore) as parts eqn:Hparts.
  assert (Hsplit : Split (Join (take i parts) "_") underscore = take i parts).
  { apply (Split_Join (take i parts) underscore).
    - intros [->|Hnil]%take_nil_inv; [by destruct Hi as [?%Nat.nle_succ_0 _]|].
      rewrite Hnil in Hi. by destruct Hi as [_ ?%Nat.nlt_0_r].
    - by apply Forall_take. }
  rewrite Hsplit. rewrite length_take_le by lia. split; [lia|].
  intros Hlong. rewrite take_take. replace (min (i - 1) i) with (i - 1)%nat by lia.
  apply sorted_before; [apply calculatePathsForJoins_ascending| |done|].
  - apply calculatePathsForJoins_elem_of. exists p. split; [done|].
    apply elem_of_joinPathsOf. exists (i - 1)%nat. rewrite <- Hparts. split; [lia|done].
  - destruct (lookup_lt_is_Some_2 parts (i - 1)) as [x Hx]; [lia|].
    replace i with (S (i - 1)) at 2 by lia.
    rewrite (take_S_r _ _ _ Hx). rewrite Join_snoc.
    + apply ltb_proper_prefix.
    + intros [?|Hnil]%take_nil_inv; [lia|].
      rewrite Hnil in Hi. by destruct Hi as [_ ?%Nat.nlt_0_r].
Qed.

Lemma calculatePathsForJoins_parent_first_witness :
  (2 ≤ length (Split "person_organization_address" underscore))%nat
  ∧ ((2 < length (Split "person_organization_address" underscore))%nat →
     ∃ i j, (i < j)%nat
            ∧ calculatePathsForJoins
                [columnOn "person_organization_address_city" ""] [] [] !! i
              = Some (Join (take (length (Split "person_organization_address"
                                            underscore) - 1)
                              (Split "person_organization_address" underscore)) "_")
            ∧ calculatePathsForJoins
                [columnOn "person_organization_address_city" ""] [] [] !! j
              = Some "person_organization_address").
Proof.
  apply (calculatePathsForJoins_parent_first
           [columnOn "person_organization_address_city" ""] [] []
           "person_organization_address").
  replace (calculatePathsForJoins [columnOn "person_organization_address_city" ""] [] [])
    with ["person_organization"; "person_organization_address"]
    by (vm_compute; reflexivity).
  right. left.
Defined.

(** X26: the count joins of a request are the selected, ordered-by and
    filtered paths that the schema knows as a column with the size path
    resolver, each listed once. *)
Theorem calculatePathsForCountJoins_paths (columns : list TableSchemaColumn)
    (orders : list datasource.Order) (filters : list datasource.FilterGroup)
    (schema : ResolvedTableSchema) :
  NoDup (calculatePathsForCountJoins columns orders filters schema)
  ∧ ∀ columnPath,
      columnPath ∈ calculatePathsForCountJoins columns orders filters schema ↔
      (columnPath ∈ (Path <$> columns)
       ∨ columnPath ∈ (datasource.Order_path <$> orders)
       ∨ columnPath ∈ (datasource.path <$> filters))
      ∧ ∃ columnSchema,
          columnsMap schema !! columnPath = Some columnSchema
          ∧ PathResolver columnSchema = "SizePathResolver".
Proof.
  unfold calculatePathsForCountJoins. cbv zeta.
  destruct (decide (size (mergedParticipatingPaths columns orders filters) = 0%nat))
    as [Hempty|_].
  - split; [constructor|]. intros columnPath.
    apply size_empty_inv in Hempty. apply leibniz_equiv in Hempty.
    rewrite <- elem_of_mergedParticipatingPaths, Hempty.
    split; [by intros ?%elem_of_nil | by intros [?%not_elem_of_empty _]].
  - split.
    + apply NoDup_ListNoDup, List.NoDup_filter, NoDup_ListNoDup, NoDup_elements.
    + intros columnPath.
      rewrite list_elem_of_In, filter_In, <- list_elem_of_In, elem_of_elements.
      rewrite elem_of_mergedParticipatingPaths. unfold Column.
      destruct (columnsMap schema !! columnPath) as [c|]; simpl.
      * rewrite bool_decide_eq_true. split.
        -- intros [? ?]. split; [done|]. by exists c.
        -- intros [? (c' & [= <-] & ?)]. done.
      * split; [by intros [_ ?] | by intros [_ (? & ? & _)]].
Qed.

End JoinOrder.

(** ** Validation of requests *)

Section Requests.
Import strings config sqlsource handler shape sample further.

Lemma validateColumns_None (th : Connector) (schema : ResolvedTableSchema)
    (columns : list TableSchemaColumn) :
  validateColumns th schema columns = None ↔
  ∀ column, column ∈ columns →
    is_Some (columnsMap schema !! Path column)
    ∧ is_Some (resolvers th !! PathResolver column)
    ∧ is_Some (handler.filters th !! Filter column)
    ∧ is_Some (sorters th !! Order column).
Proof.
  induction columns as [|c rest IH]; simpl.
  - split; [by intros _ ? ?%elem_of_nil | done].
  - unfold Column.
    destruct (columnsMap schema !! Path c) as [known|] eqn:Hknown; simpl;
      [|split; [done|]; intros H; destruct (H c ltac:(left)) as [[? ?] _]; congruence].
    destruct (resolvers th !! PathResolver c) as [resolver|] eqn:Hresolver;
      [|split; [done|]; intros H; destruct (H c ltac:(left)) as (_ & [? ?] & _); congruence].
    destruct (handler.filters th !! Filter c) as [columnFilter|] eqn:Hfilter;
      [|split; [done|]; intros H; destruct (H c ltac:(left)) as (_ & _ & [? ?] & _); congruence].
    destruct (sorters th !! Order c) as [columnOrder|] eqn:Horder;
      [|split; [done|]; intros H; destruct (H c ltac:(left)) as (_ & _ & _ & [? ?]); congruence].
    rewrite IH. split.
    + intros H column [->|?]%elem_of_cons; [|by apply H].
      rewrite Hknown, Hresolver, Hfilter, Horder. by repeat split; eexists.
    + intros H column ?. apply H. by right.
Qed.

Lemma validateFilters_None (schema : ResolvedTableSchema)
    (filters : list datasource.FilterGroup) :
  validateFilters schema filters = None ↔
  ∀ filterGroup, filterGroup ∈ filters →
                 is_Some (columnsMap schema !! datasource.path filterGroup).
Proof.
  induction filters as [|g rest IH]; simpl.
  - split; [by intros _ ? ?%elem_of_nil | done].
  - unfold Column. destruct (columnsMap schema !! datasource.path g) as [c|] eqn:Hc.
    + rewrite IH. split.
      * intros H f [->|?]%elem_of_cons; [by rewrite Hc | by apply H].
      * intros H f ?. apply H. by right.
    + split; [done|]. intros H. destruct (H g ltac:(left)) as [? ?]. congruence.
Qed.

Lemma validateOrders_None (schema : ResolvedTableSchema)
    (orders : list datasource.Order) :
  validateOrders schema orders = None ↔
  ∀ columnOrder, columnOrder ∈ orders →
                 is_Some (columnsMap schema !! datasource.Order_path columnOrder).
Proof.
  induction orders as [|o rest IH]; simpl.
  - split; [by intros _ ? ?%elem_of_nil | done].
  - unfold Column. destruct (columnsMap schema !! datasource.Order_path o) as [c|] eqn:Hc.
    + rewrite IH. split.
      * intros H f [->|?]%elem_of_cons; [by rewrite Hc | by apply H].
      * intros H f ?. apply H. by right.
    + split; [done|]. intros H. destruct (H o ltac:(left)) as [? ?]. congruence.
Qed.

Lemma ValidateRequest_None (th : Connector) (columns : list TableSchemaColumn)
    (schema : ResolvedTableSchema) (filters : list datasource.FilterGroup)
    (orders : list datasource.Order) (globalSearch : string) (limit offset : N)
    (locale : string) :
  ValidateRequest th columns schema filters orders globalSearch limit offset locale = None ↔
  columns ≠ []
  ∧ is_Some (languages (translator th) !! locale)
  ∧ validateColumns th schema columns = None
  ∧ validateFilters schema filters = None
  ∧ validateOrders schema orders = None.
Proof.
  unfold ValidateRequest, Translator_Language.
  destruct (decide (length columns = 0%nat)) as [Hlen|Hlen].
  { split; [done|]. intros [Hne _]. by destruct columns. }
  assert (Hne : columns ≠ []) by (by intros ->).
  destruct (languages (translator th) !! locale) as [catalog|].
  - destruct (validateColumns th schema columns) as [err|].
    { split; [done|]. by intros (_ & _ & ? & _). }
    destruct (validateFilters schema filters) as [err|].
    { split; [done|]. by intros (_ & _ & _ & ? & _). }
    split; [|by intros (_ & _ & _ & _ & ?)].
    intros ->. by repeat split.
  - split; [done|]. by intros (_ & [? ?] & _).
Qed.

(** X27: the connector that [NewConnector] builds accepts a request
    exactly when it selects a column, the translator knows the locale,
    every selected column is a column of the resolved schema and names
    one of the two path resolvers, one of the seven filters and one of
    the four orders, and every filter path and order path is a column of
    the resolved schema.  A column with no filter is not accepted. *)
Theorem ValidateRequest_accepts (enumMapper : EnumMapper) (translator : Translator)
    (schemaMapper : SchemaMapper) (th : Connector)
    (columns : list TableSchemaColumn) (schema : ResolvedTableSchema)
    (filters : list datasource.FilterGroup) (orders : list datasource.Order)
    (globalSearch : string) (limit offset : N) (locale : string) :
  NewConnector enumMapper translator schemaMapper = inr th →
  ValidateRequest th columns schema filters orders globalSearch limit offset locale = None ↔
  columns ≠ []
  ∧ is_Some (languages translator !! locale)
  ∧ (∀ column, column ∈ columns →
       is_Some (columnsMap schema !! Path column)
       ∧ PathResolver column ∈ [""; "SizePathResolver"]
       ∧ Filter column ∈ ["BooleanFilter"; "StringFilter"; "StringRegExFilter";
                          "EnumFilter"; "NumericFilter"; "DateFilter";
                          "DateTimeFilter"]
       ∧ Order column ∈ [""; "EnumOrder"; "ShortEnumOrder"; "LongEnumOrder"])
  ∧ (∀ filterGroup, filterGroup ∈ filters →
       is_Some (columnsMap schema !! datasource.path filterGroup))
  ∧ (∀ columnOrder, columnOrder ∈ orders →
       is_Some (columnsMap schema !! datasource.Order_path columnOrder)).
Proof.
  unfold NewConnector.
  destruct (SchemaMapper_ValidateIntegrity schemaMapper enumMapper); [done|].
  intros [= <-].
  rewrite ValidateRequest_None, validateColumns_None, validateFilters_None,
    validateOrders_None.
  cbn [handler.translator resolvers handler.filters sorters].
  assert (Hsets : ∀ column : TableSchemaColumn,
    (is_Some (({[ "" := path.SimpleResolver_ResolvePathName;
                  "SizePathResolver" := path.SizeResolver_ResolvePathName ]}
               : gmap string datasource.PathResolver) !! PathResolver column)
     ↔ PathResolver column ∈ [""; "SizePathResolver"])
    ∧ (is_Some (({[ "BooleanFilter" := filter.Boolean;
                    "StringFilter" := filter.PlainString;
                    "StringRegExFilter" := filter.RegexString;
                    "EnumFilter" := filter.PlainString;
                    "NumericFilter" := filter.Numeric;
                    "DateFilter" := filter.PlainString;
                    "DateTimeFilter" := filter.PlainString ]}
                 : gmap string filter.Filter) !! Filter column)
       ↔ Filter column ∈ ["BooleanFilter"; "StringFilter"; "StringRegExFilter";
                          "EnumFilter"; "NumericFilter"; "DateFilter";
                          "DateTimeFilter"])
    ∧ (is_Some (({[ "" := order.Direct;
                    "EnumOrder" := order.EnumSorter enumMapper translator;
                    "ShortEnumOrder" := order.ShortEnumSorter enumMapper translator;
                    "LongEnumOrder" := order.LongEnumSorter enumMapper translator ]}
                 : gmap string order.Sorter) !! Order column)
       ↔ Order column ∈ [""; "EnumOrder"; "ShortEnumOrder"; "LongEnumOrder"])).
  { intros column.
    rewrite !lookup_insert_is_Some', !lookup_singleton_is_Some.
    rewrite !elem_of_cons, !elem_of_nil. intuition congruence. }
  split; intros (Hne & Hlocale & Hcolumns & Hfilters & Horders);
    (split; [done|]; split; [done|]; split; [|by split]);
    intros column Hin; destruct (Hcolumns column Hin) as (? & ? & ? & ?);
    destruct (Hsets column) as (Hr & Hf & Ho);
    (split; [done|]; split; [by apply Hr|]; split; [by apply Hf | by apply Ho]).
Qed.

Lemma ValidateRequest_accepts_witness :
  ValidateRequest (newConnector sampleMapper sampleTranslator companyMapper)
    [filteredColumn "person_name" "StringFilter"] people []
    [orderOn "person_name"] "" 0 0 "de"
  = None.
Proof.
  assert (Hvalid : SchemaMapper_ValidateIntegrity companyMapper sampleMapper = None)
    by (vm_compute; reflexivity).
  assert (Hnew : NewConnector sampleMapper sampleTranslator companyMapper
                 = inr (newConnector sampleMapper sampleTranslator companyMapper))
    by (unfold NewConnector; rewrite Hvalid; reflexivity).
  apply (proj2 (ValidateRequest_accepts sampleMapper sampleTranslator companyMapper
                  (newConnector sampleMapper sampleTranslator companyMapper)
                  [filteredColumn "person_name" "StringFilter"] people []
                  [orderOn "person_name"] "" 0 0 "de" Hnew)).
  clear Hvalid Hnew.
  split; [discriminate|].
  split; [vm_compute; eexists; reflexivity|].
  split; [|split].
  - intros column Hin.
    apply elem_of_cons in Hin as [->|Hin]; [|by apply elem_of_nil in Hin].
    split; [vm_compute; eexists; reflexivity|].
    split; [simpl; left|].
    split; [simpl; right; left | simpl; left].
  - intros filterGroup Hin. by apply elem_of_nil in Hin.
  - intros columnOrder Hin.
    apply elem_of_cons in Hin as [->|Hin]; [|by apply elem_of_nil in Hin].
    vm_compute. eexists. reflexivity.
Defined.

(** X28: for a request that the connector accepts, deferred loading is
    advised exactly when some order path has more than two segments or is
    a column with the size path resolver. *)
Theorem adviseDeferredLoading_validated (th : Connector)
    (columns : list TableSchemaColumn) (schema : ResolvedTableSchema)
    (filters : list datasource.FilterGroup) (orders : list datasource.Order)
    (globalSearch : string) (limit offset : N) (locale : string) :
  ValidateRequest th columns schema filters orders globalSearch limit offset locale = None →
  adviseDeferredLoading columns orders schema = true ↔
  ∃ columnOrder, columnOrder ∈ orders ∧ crossesJoinOrCounts schema columnOrder = true.
Proof.
  intros (_ & _ & _ & _ & Horders)%ValidateRequest_None.
  rewrite validateOrders_None in Horders.
  induction orders as [|o rest IH]; simpl.
  - split; [done|]. by intros (? & ?%elem_of_nil & _).
  - unfold crossesJoinOrCounts in *.
    destruct (2 <? length (Split (datasource.Order_path o) underscore))%nat eqn:Hlong.
    { split; [|done]. intros _. exists o. split; [left|]. by rewrite Hlong. }
    destruct (Horders o ltac:(left)) as [c Hc]. unfold Column in *. rewrite Hc.
    destruct (decide (PathResolver c = "SizePathResolver")) as [Hsize|Hsize].
    { split; [|done]. intros _. exists o. split; [left|].
      rewrite Hlong, Hc. simpl. by apply bool_decide_eq_true. }
    rewrite IH by (intros o' ?; apply Horders; by right).
    split.
    + intros (o' & ? & ?). exists o'. split; [by right | done].
    + intros (o' & [->|?]%elem_of_cons & Ho'); [|by exists o'].
      rewrite Hlong, Hc in Ho'. simpl in Ho'.
      by apply bool_decide_eq_true in Ho'.
Qed.

Lemma adviseDeferredLoading_validated_witness :
  adviseDeferredLoading [filteredColumn "person_name" "StringFilter"]
    [orderOn "person_name"] people = true
  ↔ ∃ columnOrder,
      columnOrder ∈ [orderOn "person_name"]
      ∧ crossesJoinOrCounts people columnOrder = true.
Proof.
  apply (adviseDeferredLoading_validated
           (newConnector sampleMapper sampleTranslator companyMapper)
           [filteredColumn "person_name" "StringFilter"] people []
           [orderOn "person_name"] "" 0%N 0%N "de").
  vm_compute. reflexivity.
Defined.

End Requests.
